(** * A shallow embedding of the minecraft_runner game engine

    The simulation lives in [src/services/engine.ts] (class [GameEngine]),
    its constants in [src/constants.ts], and the two rendering helpers the
    spec talks about ([applyFog], [project]) in
    [src/components/GameCanvas.tsx].

    Modelling choices:
    - JavaScript numbers are exact rationals [Q] (reals [R] for the
      projection, which needs [Math.cos] and [Math.sin]); quantities that
      the code only ever holds as integers (lives, score, level, counters,
      the generation cursor) are [Z].
    - [Math.random] is an arbitrary stream [random : nat -> Q]; the engine
      state carries the index [rng] of the next draw.  [Math.sin] (used for
      the height of gold blocks) is an arbitrary function [sin : Q -> Q].
    - The audio calls have no effect on the simulation state and are
      omitted.
    - The object mutations of the source ([this.x = ...], [entity.collected
      = true]) become functional record updates; the collision loop threads
      the engine state through the entity list and rebuilds the list with
      the updated entities. *)

From Stdlib Require Import QArith Qround Qminmax Qabs ZArith List String Bool Lia Lqa.
From Stdlib Require Import Ascii DecimalString Sorted Permutation.
From Stdlib Require Reals.
Import ListNotations.

Open Scope Q_scope.

(** ** [src/types.ts] *)

Inductive BlockType :=
  GRASS | DIRT | STONE | WOOD | LEAVES | GOLD | TNT | LAVA | CREEPER | SKELETON.

Scheme Equality for BlockType.

Inductive Difficulty := EASY | MEDIUM | HARD.

Scheme Equality for Difficulty.

Module Point3D.
Record t := mk { x : Q; y : Q; z : Q }.
Definition set_x (v : Q) (p : t) : t := mk v (y p) (z p).
Definition set_y (v : Q) (p : t) : t := mk (x p) v (z p).
Definition set_z (v : Q) (p : t) : t := mk (x p) (y p) v.
End Point3D.

(** Entity ids are the template strings [ground_${z}_${x}], [obs_${z}],
    [obs_stack_${z}] and [gold_${z}]; we keep their structure. *)
Inductive EntityId :=
| ground_id (zi xi : Z)
| obs_id (zi : Z)
| obs_stack_id (zi : Z)
| gold_id (zi : Z).

Module Entity.
(** [collected?: boolean]: an absent flag reads as [false]. *)
Record t := mk {
  id : EntityId;
  type : BlockType;
  position : Point3D.t;
  size : Q;
  collected : bool;
  rotation : option Q }.
Definition set_collected (v : bool) (e : t) : t :=
  mk (id e) (type e) (position e) (size e) v (rotation e).
End Entity.

Module Particle.
(** The id [p_${n}] is kept as its counter [n]. *)
Record t := mk {
  id : Z;
  position : Point3D.t;
  velocity : Point3D.t;
  life : Q;
  color : string;
  size : Q }.
End Particle.

Module PlayerState.
Record t := mk {
  position : Point3D.t;
  velocity : Point3D.t;
  isJumping : bool;
  tilt : Q;
  jumpCount : Z;
  phaseActive : bool;
  phaseTimeRemaining : Q;
  phaseCooldown : Q }.
Definition set_position (v : Point3D.t) (p : t) : t :=
  mk v (velocity p) (isJumping p) (tilt p) (jumpCount p) (phaseActive p) (phaseTimeRemaining p) (phaseCooldown p).
Definition set_velocity (v : Point3D.t) (p : t) : t :=
  mk (position p) v (isJumping p) (tilt p) (jumpCount p) (phaseActive p) (phaseTimeRemaining p) (phaseCooldown p).
Definition set_isJumping (v : bool) (p : t) : t :=
  mk (position p) (velocity p) v (tilt p) (jumpCount p) (phaseActive p) (phaseTimeRemaining p) (phaseCooldown p).
Definition set_tilt (v : Q) (p : t) : t :=
  mk (position p) (velocity p) (isJumping p) v (jumpCount p) (phaseActive p) (phaseTimeRemaining p) (phaseCooldown p).
Definition set_jumpCount (v : Z) (p : t) : t :=
  mk (position p) (velocity p) (isJumping p) (tilt p) v (phaseActive p) (phaseTimeRemaining p) (phaseCooldown p).
Definition set_phaseActive (v : bool) (p : t) : t :=
  mk (position p) (velocity p) (isJumping p) (tilt p) (jumpCount p) v (phaseTimeRemaining p) (phaseCooldown p).
Definition set_phaseTimeRemaining (v : Q) (p : t) : t :=
  mk (position p) (velocity p) (isJumping p) (tilt p) (jumpCount p) (phaseActive p) v (phaseCooldown p).
Definition set_phaseCooldown (v : Q) (p : t) : t :=
  mk (position p) (velocity p) (isJumping p) (tilt p) (jumpCount p) (phaseActive p) (phaseTimeRemaining p) v.
End PlayerState.

Module Input.
(** The argument of [update]; an absent [phase] field reads as [false]. *)
Record t := mk { left : bool; right : bool; jump : bool; phase : bool }.
End Input.

(** ** [src/constants.ts] *)

Definition LANE_WIDTH : Q := 1.2.
Definition GRAVITY : Q := 0.045.
Definition JUMP_FORCE : Q := 0.65.
Definition MOVE_ACCEL_X : Q := 0.03.
Definition FRICTION_X : Q := 0.85.
Definition MAX_SPEED_X : Q := 0.3.
Definition CAMERA_TILT_FACTOR : Q := 0.5.
Definition BASE_LEVEL_TARGET : Z := 5.
Definition LEVEL_TARGET_INCREMENT : Z := 3.
Definition FOG_DISTANCE : Q := 25.

Record DifficultySettings := mkSettings {
  startSpeed : Q; maxSpeed : Q; accel : Q; obstacleChance : Q }.

Definition DIFFICULTY_SETTINGS (d : Difficulty) : DifficultySettings :=
  match d with
  | EASY => mkSettings 0.12 0.5 0.0001 0.1
  | MEDIUM => mkSettings 0.18 0.8 0.0002 0.15
  | HARD => mkSettings 0.25 1.2 0.0004 0.25
  end.

(** Strict comparison on numbers, as a boolean. *)
Definition Qltb (a b : Q) : bool := negb (Qle_bool b a).

(** The number an arithmetic expression evaluates to, stored in lowest
    terms ([jsnum q == q]): every computed number the engine stores goes
    through it, so that the rationals of a long run stay small. *)
Definition jsnum (q : Q) : Q := Qred q.

(** ** [src/services/engine.ts]: the state of a [GameEngine] *)

Record GameEngine := mkGameEngine {
  entities : list Entity.t;
  particles : list Particle.t;
  player : PlayerState.t;
  lastGenZ : Z;
  currentSpeed : Q;
  score : Z;
  lives : Z;
  level : Z;
  difficulty : Difficulty;
  particleIdCounter : Z;
  goldCollectedInLevel : Z;
  levelTarget : Z;
  gameWon : bool;
  shakeIntensity : Q;
  lastJumpInput : bool;
  lastPhaseInput : bool;
  rng : nat }.

Definition set_entities (v : list Entity.t) (s : GameEngine) : GameEngine :=
  mkGameEngine v (particles s) (player s) (lastGenZ s) (currentSpeed s) (score s) (lives s) (level s) (difficulty s) (particleIdCounter s) (goldCollectedInLevel s) (levelTarget s) (gameWon s) (shakeIntensity s) (lastJumpInput s) (lastPhaseInput s) (rng s).
Definition set_particles (v : list Particle.t) (s : GameEngine) : GameEngine :=
  mkGameEngine (entities s) v (player s) (lastGenZ s) (currentSpeed s) (score s) (lives s) (level s) (difficulty s) (particleIdCounter s) (goldCollectedInLevel s) (levelTarget s) (gameWon s) (shakeIntensity s) (lastJumpInput s) (lastPhaseInput s) (rng s).
Definition set_player (v : PlayerState.t) (s : GameEngine) : GameEngine :=
  mkGameEngine (entities s) (particles s) v (lastGenZ s) (currentSpeed s) (score s) (lives s) (level s) (difficulty s) (particleIdCounter s) (goldCollectedInLevel s) (levelTarget s) (gameWon s) (shakeIntensity s) (lastJumpInput s) (lastPhaseInput s) (rng s).
Definition set_lastGenZ (v : Z) (s : GameEngine) : GameEngine :=
  mkGameEngine (entities s) (particles s) (player s) v (currentSpeed s) (score s) (lives s) (level s) (difficulty s) (particleIdCounter s) (goldCollectedInLevel s) (levelTarget s) (gameWon s) (shakeIntensity s) (lastJumpInput s) (lastPhaseInput s) (rng s).
Definition set_currentSpeed (v : Q) (s : GameEngine) : GameEngine :=
  mkGameEngine (entities s) (particles s) (player s) (lastGenZ s) v (score s) (lives s) (level s) (difficulty s) (particleIdCounter s) (goldCollectedInLevel s) (levelTarget s) (gameWon s) (shakeIntensity s) (lastJumpInput s) (lastPhaseInput s) (rng s).
Definition set_score (v : Z) (s : GameEngine) : GameEngine :=
  mkGameEngine (entities s) (particles s) (player s) (lastGenZ s) (currentSpeed s) v (lives s) (level s) (difficulty s) (particleIdCounter s) (goldCollectedInLevel s) (levelTarget s) (gameWon s) (shakeIntensity s) (lastJumpInput s) (lastPhaseInput s) (rng s).
Definition set_lives (v : Z) (s : GameEngine) : GameEngine :=
  mkGameEngine (entities s) (particles s) (player s) (lastGenZ s) (currentSpeed s) (score s) v (level s) (difficulty s) (particleIdCounter s) (goldCollectedInLevel s) (levelTarget s) (gameWon s) (shakeIntensity s) (lastJumpInput s) (lastPhaseInput s) (rng s).
Definition set_level (v : Z) (s : GameEngine) : GameEngine :=
  mkGameEngine (entities s) (particles s) (player s) (lastGenZ s) (currentSpeed s) (score s) (lives s) v (difficulty s) (particleIdCounter s) (goldCollectedInLevel s) (levelTarget s) (gameWon s) (shakeIntensity s) (lastJumpInput s) (lastPhaseInput s) (rng s).
Definition set_difficulty (v : Difficulty) (s : GameEngine) : GameEngine :=
  mkGameEngine (entities s) (particles s) (player s) (lastGenZ s) (currentSpeed s) (score s) (lives s) (level s) v (particleIdCounter s) (goldCollectedInLevel s) (levelTarget s) (gameWon s) (shakeIntensity s) (lastJumpInput s) (lastPhaseInput s) (rng s).
Definition set_particleIdCounter (v : Z) (s : GameEngine) : GameEngine :=
  mkGameEngine (entities s) (particles s) (player s) (lastGenZ s) (currentSpeed s) (score s) (lives s) (level s) (difficulty s) v (goldCollectedInLevel s) (levelTarget s) (gameWon s) (shakeIntensity s) (lastJumpInput s) (lastPhaseInput s) (rng s).
Definition set_goldCollectedInLevel (v : Z) (s : GameEngine) : GameEngine :=
  mkGameEngine (entities s) (particles s) (player s) (lastGenZ s) (currentSpeed s) (score s) (lives s) (level s) (difficulty s) (particleIdCounter s) v (levelTarget s) (gameWon s) (shakeIntensity s) (lastJumpInput s) (lastPhaseInput s) (rng s).
Definition set_levelTarget (v : Z) (s : GameEngine) : GameEngine :=
  mkGameEngine (entities s) (particles s) (player s) (lastGenZ s) (currentSpeed s) (score s) (lives s) (level s) (difficulty s) (particleIdCounter s) (goldCollectedInLevel s) v (gameWon s) (shakeIntensity s) (lastJumpInput s) (lastPhaseInput s) (rng s).
Definition set_gameWon (v : bool) (s : GameEngine) : GameEngine :=
  mkGameEngine (entities s) (particles s) (player s) (lastGenZ s) (currentSpeed s) (score s) (lives s) (level s) (difficulty s) (particleIdCounter s) (goldCollectedInLevel s) (levelTarget s) v (shakeIntensity s) (lastJumpInput s) (lastPhaseInput s) (rng s).
Definition set_shakeIntensity (v : Q) (s : GameEngine) : GameEngine :=
  mkGameEngine (entities s) (particles s) (player s) (lastGenZ s) (currentSpeed s) (score s) (lives s) (level s) (difficulty s) (particleIdCounter s) (goldCollectedInLevel s) (levelTarget s) (gameWon s) v (lastJumpInput s) (lastPhaseInput s) (rng s).
Definition set_lastJumpInput (v : bool) (s : GameEngine) : GameEngine :=
  mkGameEngine (entities s) (particles s) (player s) (lastGenZ s) (currentSpeed s) (score s) (lives s) (level s) (difficulty s) (particleIdCounter s) (goldCollectedInLevel s) (levelTarget s) (gameWon s) (shakeIntensity s) v (lastPhaseInput s) (rng s).
Definition set_lastPhaseInput (v : bool) (s : GameEngine) : GameEngine :=
  mkGameEngine (entities s) (particles s) (player s) (lastGenZ s) (currentSpeed s) (score s) (lives s) (level s) (difficulty s) (particleIdCounter s) (goldCollectedInLevel s) (levelTarget s) (gameWon s) (shakeIntensity s) (lastJumpInput s) v (rng s).
Definition set_rng (v : nat) (s : GameEngine) : GameEngine :=
  mkGameEngine (entities s) (particles s) (player s) (lastGenZ s) (currentSpeed s) (score s) (lives s) (level s) (difficulty s) (particleIdCounter s) (goldCollectedInLevel s) (levelTarget s) (gameWon s) (shakeIntensity s) (lastJumpInput s) (lastPhaseInput s) v.

Definition map_player (f : PlayerState.t -> PlayerState.t) (s : GameEngine) : GameEngine :=
  set_player (f (player s)) s.

(** [availableObstacles] of [generateSlice]. *)
Definition availableObstacles (lvl : Z) : list BlockType :=
  [STONE; TNT] ++ (if (2 <=? lvl)%Z then [CREEPER] else [])
               ++ (if (3 <=? lvl)%Z then [SKELETON] else []).

(** The five ground blocks of slice [zi]. *)
Definition ground_row (zi : Z) : list Entity.t :=
  map (fun xi =>
         Entity.mk (ground_id zi xi)
           (if (Z.rem (xi + zi) 2 =? 0)%Z then GRASS else GRASS)
           (Point3D.mk (jsnum (inject_Z xi * LANE_WIDTH)) (-1) (inject_Z zi)) 1 false None)
      [-2; -1; 0; 1; 2]%Z.

Definition initial_player : PlayerState.t :=
  PlayerState.mk (Point3D.mk 0 0 0) (Point3D.mk 0 0 0) false 0 0 false 0 0.

(** The player's collision box and the overlap test of [checkCollisions]. *)
Definition overlaps (pp : Point3D.t) (e : Entity.t) : bool :=
  let w := 0.6 in let h := 0.9 in let d := 0.6 in
  let dx := Qabs (Point3D.x pp - Point3D.x (Entity.position e)) in
  let dy := Qabs (Point3D.y pp - Point3D.y (Entity.position e)) in
  let dz := Qabs (Point3D.z pp - Point3D.z (Entity.position e)) in
  let minDistX := (w + Entity.size e) / 2 in
  let minDistY := (h + Entity.size e) / 2 in
  let minDistZ := (d + Entity.size e) / 2 in
  Qltb dx minDistX && Qltb dy minDistY && Qltb dz minDistZ.

Section Engine.

(** [Math.random()], as a stream of draws, and [Math.sin]. *)
Variable random : nat -> Q.
Variable sin : Q -> Q.

Definition draw (s : GameEngine) : Q * GameEngine :=
  (random (rng s), set_rng (S (rng s)) s).

Fixpoint spawnParticles (pos : Point3D.t) (color : string) (count : nat)
    (speedMult : Q) (s : GameEngine) : GameEngine :=
  match count with
  | O => s
  | S n =>
      let pid := particleIdCounter s in
      let s := set_particleIdCounter (pid + 1)%Z s in
      let (r1, s) := draw s in
      let (r2, s) := draw s in
      let (r3, s) := draw s in
      let (r4, s) := draw s in
      let p := Particle.mk pid
                 (Point3D.mk (Point3D.x pos) (Point3D.y pos) (Point3D.z pos))
                 (Point3D.mk (jsnum ((r1 - 0.5) * 0.4 * speedMult))
                             (jsnum (r2 * 0.4 * speedMult))
                             (jsnum ((r3 - 0.5) * 0.4 * speedMult)))
                 1 color (jsnum (r4 * 0.2 + 0.05)) in
      spawnParticles pos color n speedMult (set_particles (particles s ++ [p]) s)
  end.

Definition push_entity (e : Entity.t) (s : GameEngine) : GameEngine :=
  set_entities (entities s ++ [e]) s.

Definition generateSlice (zi : Z) (s : GameEngine) : GameEngine :=
  let settings := DIFFICULTY_SETTINGS (difficulty s) in
  let s := set_entities (entities s ++ ground_row zi) s in
  if (10 <? zi)%Z then
    let (r, s) := draw s in
    let lane := (Qfloor (r * 3) - 1)%Z in
    let xPos := jsnum (inject_Z lane * LANE_WIDTH) in
    let (rand, s) := draw s in
    let chance := Qmin (obstacleChance settings + inject_Z (level s) * 0.01) 0.4 in
    if Qltb rand chance then
      let avail := availableObstacles (level s) in
      let (r, s) := draw s in
      (* [Math.random() < 1], so the index is always in range *)
      let type := nth (Z.to_nat (Qfloor (r * inject_Z (Z.of_nat (List.length avail)))))
                      avail STONE in
      let s := push_entity
                 (Entity.mk (obs_id zi) type (Point3D.mk xPos 0 (inject_Z zi)) 1 false None) s in
      let (r, s) := draw s in
      if Qltb 0.7 r && negb (BlockType_beq type CREEPER)
                    && negb (BlockType_beq type SKELETON) then
        let (r, s) := draw s in
        push_entity
          (Entity.mk (obs_stack_id zi) (if Qltb 0.5 r then TNT else STONE)
             (Point3D.mk xPos 1 (inject_Z zi)) 1 false None) s
      else s
    else if Qltb 0.5 rand && Qltb rand 0.8 then
      push_entity
        (Entity.mk (gold_id zi) GOLD
           (Point3D.mk xPos (jsnum (0.5 + sin (inject_Z zi) * 0.2)) (inject_Z zi)) 0.5 false (Some 0)) s
    else s
  else s.

(** [for (let z = 0; z < 25; z++) this.generateSlice(z);] *)
Definition generateSlices (zs : list Z) (s : GameEngine) : GameEngine :=
  fold_left (fun s zi => generateSlice zi s) zs s.

(** [reset] reinitialises every field but the particle id counter (and the
    position in the random stream). *)
Definition reset (d : Difficulty) (s : GameEngine) : GameEngine :=
  let settings := DIFFICULTY_SETTINGS d in
  let s := {| entities := []; particles := []; player := initial_player;
              lastGenZ := 5; currentSpeed := startSpeed settings; score := 0;
              lives := 3; level := 1; difficulty := d;
              particleIdCounter := particleIdCounter s;
              goldCollectedInLevel := 0; levelTarget := BASE_LEVEL_TARGET;
              gameWon := false; shakeIntensity := 0;
              lastJumpInput := false; lastPhaseInput := false; rng := rng s |} in
  generateSlices (map Z.of_nat (seq 0 25)) s.

(** [new GameEngine()]: the field initialisers, then [reset(MEDIUM)]. *)
Definition new_GameEngine : GameEngine :=
  reset MEDIUM
    {| entities := []; particles := []; player := initial_player;
       lastGenZ := 10; currentSpeed := 0; score := 0; lives := 3; level := 1;
       difficulty := MEDIUM; particleIdCounter := 0; goldCollectedInLevel := 0;
       levelTarget := BASE_LEVEL_TARGET; gameWon := false; shakeIntensity := 0;
       lastJumpInput := false; lastPhaseInput := false; rng := 0 |}.

(** *** The stages of [update], in source order *)

(** Decay Shake *)
Definition decayShake (s : GameEngine) : GameEngine :=
  if Qltb 0.001 (shakeIntensity s)
  then set_shakeIntensity (jsnum (shakeIntensity s * 0.85)) s
  else set_shakeIntensity 0 s.

(** Update Abilities *)
Definition updateAbilities_player (deltaTime : Q) (p : PlayerState.t) : PlayerState.t :=
  let p :=
    if Qltb 0 (PlayerState.phaseTimeRemaining p) then
      let p := PlayerState.set_phaseTimeRemaining
                 (jsnum (PlayerState.phaseTimeRemaining p - deltaTime)) p in
      if Qle_bool (PlayerState.phaseTimeRemaining p) 0
      then PlayerState.set_phaseActive false p else p
    else p in
  if Qltb 0 (PlayerState.phaseCooldown p)
  then PlayerState.set_phaseCooldown (jsnum (PlayerState.phaseCooldown p - deltaTime)) p
  else p.

Definition updateAbilities (deltaTime : Q) (s : GameEngine) : GameEngine :=
  map_player (updateAbilities_player deltaTime) s.

(** Activate Phase *)
Definition activatePhase (input : Input.t) (s : GameEngine) : GameEngine :=
  let phasePressed := Input.phase input && negb (lastPhaseInput s) in
  let s := set_lastPhaseInput (Input.phase input) s in
  if phasePressed && Qle_bool (PlayerState.phaseCooldown (player s)) 0 then
    let s := map_player (fun p =>
               PlayerState.set_phaseCooldown 10000
                 (PlayerState.set_phaseTimeRemaining 5000
                    (PlayerState.set_phaseActive true p))) s in
    spawnParticles (PlayerState.position (player s)) "#00FFFF" 20 1.5 s
  else s.

(** 1. Leveling Logic (Gold Based) *)
Definition levelUp (s : GameEngine) : GameEngine :=
  let settings := DIFFICULTY_SETTINGS (difficulty s) in
  if (levelTarget s <=? goldCollectedInLevel s)%Z then
    let s := set_level (level s + 1)%Z s in
    let s := set_goldCollectedInLevel 0 s in
    let s := set_levelTarget (levelTarget s + LEVEL_TARGET_INCREMENT)%Z s in
    if negb (Difficulty_beq (difficulty s) EASY)
    then set_currentSpeed (Qmin (jsnum (currentSpeed s + 0.05)) (jsnum (maxSpeed settings + 0.2))) s
    else s
  else s.

(** Calculate target speed; Smooth acceleration to target speed *)
Definition targetSpeed (s : GameEngine) : Q :=
  let settings := DIFFICULTY_SETTINGS (difficulty s) in
  if negb (Difficulty_beq (difficulty s) EASY)
  then Qmin (jsnum (startSpeed settings + inject_Z (level s - 1) * 0.04)) (maxSpeed settings)
  else startSpeed settings.

Definition accelerate (s : GameEngine) : GameEngine :=
  let settings := DIFFICULTY_SETTINGS (difficulty s) in
  if Qltb (currentSpeed s) (targetSpeed s)
  then set_currentSpeed (jsnum (currentSpeed s + accel settings)) s
  else s.

(** 2. Move Player Forward *)
Definition moveForward (s : GameEngine) : GameEngine :=
  let v := currentSpeed s in
  map_player (fun p =>
    let pos := PlayerState.position p in
    PlayerState.set_position (Point3D.set_z (jsnum (Point3D.z pos + v)) pos) p) s.

(** 3. Lateral Physics (Inertia-based), Tilt Effect, Clamp X Position *)
Definition lateral_player (input : Input.t) (p : PlayerState.t) : PlayerState.t :=
  let vx := Point3D.x (PlayerState.velocity p) in
  let vx := if Input.left input then jsnum (vx - MOVE_ACCEL_X) else vx in
  let vx := if Input.right input then jsnum (vx + MOVE_ACCEL_X) else vx in
  let vx := jsnum (vx * FRICTION_X) in
  let vx := if Qltb MAX_SPEED_X vx then MAX_SPEED_X else vx in
  let vx := if Qltb vx (- MAX_SPEED_X) then - MAX_SPEED_X else vx in
  let px := jsnum (Point3D.x (PlayerState.position p) + vx) in
  let tilt := jsnum ((- vx) * CAMERA_TILT_FACTOR) in
  let MAX_X := jsnum (LANE_WIDTH * 1.8) in
  let '(px, vx) := if Qltb px (- MAX_X) then (- MAX_X, 0) else (px, vx) in
  let '(px, vx) := if Qltb MAX_X px then (MAX_X, 0) else (px, vx) in
  PlayerState.set_tilt tilt
    (PlayerState.set_velocity (Point3D.set_x vx (PlayerState.velocity p))
       (PlayerState.set_position (Point3D.set_x px (PlayerState.position p)) p)).

Definition lateral (input : Input.t) (s : GameEngine) : GameEngine :=
  map_player (lateral_player input) s.

(** 4. Jump & Gravity (Double Jump Logic) *)
Definition set_vy (v : Q) (p : PlayerState.t) : PlayerState.t :=
  PlayerState.set_velocity (Point3D.set_y v (PlayerState.velocity p)) p.

Definition firstJump (p : PlayerState.t) : PlayerState.t :=
  PlayerState.set_jumpCount 1 (PlayerState.set_isJumping true (set_vy JUMP_FORCE p)).

Definition doubleJump (p : PlayerState.t) : PlayerState.t :=
  PlayerState.set_jumpCount 2 (set_vy (JUMP_FORCE * 0.9) p).

Definition gravity_player (p : PlayerState.t) : PlayerState.t :=
  let vy := jsnum (Point3D.y (PlayerState.velocity p) - GRAVITY) in
  let py := jsnum (Point3D.y (PlayerState.position p) + vy) in
  let p := PlayerState.set_position (Point3D.set_y py (PlayerState.position p)) (set_vy vy p) in
  if Qle_bool py 0 then
    PlayerState.set_jumpCount 0
      (PlayerState.set_isJumping false
         (set_vy 0 (PlayerState.set_position (Point3D.set_y 0 (PlayerState.position p)) p)))
  else p.

Definition jumpAndGravity (input : Input.t) (s : GameEngine) : GameEngine :=
  let jumpPressed := Input.jump input && negb (lastJumpInput s) in
  let s := set_lastJumpInput (Input.jump input) s in
  let p := player s in
  let s :=
    if jumpPressed then
      if negb (PlayerState.isJumping p) then map_player firstJump s
      else if (PlayerState.jumpCount p <? 2)%Z then
        let s := map_player doubleJump s in
        spawnParticles (PlayerState.position (player s)) "#FFFFFF" 8 0.5 s
      else s
    else s in
  map_player gravity_player s.

(** 5. World Generation *)
Definition worldGen (s : GameEngine) : GameEngine :=
  let renderDistance := 25 in
  if Qltb (inject_Z (lastGenZ s)) (Point3D.z (PlayerState.position (player s)) + renderDistance)
  then let s := generateSlice (lastGenZ s) s in set_lastGenZ (lastGenZ s + 1)%Z s
  else s.

(** Cleanup behind *)
Definition cleanup (s : GameEngine) : GameEngine :=
  let pz := Point3D.z (PlayerState.position (player s)) in
  set_entities
    (filter (fun e => Qltb (pz - 5) (Point3D.z (Entity.position e))) (entities s)) s.

(** 6. Collision Detection *)
Definition handleCollision (s : GameEngine) (e : Entity.t) : Entity.t * GameEngine :=
  if BlockType_beq (Entity.type e) GOLD then
    let e := Entity.set_collected true e in
    let s := set_score (score s + 10)%Z s in
    let s := set_goldCollectedInLevel (goldCollectedInLevel s + 1)%Z s in
    let s := spawnParticles (Entity.position e) "#FCEE4B" 10 1 s in
    (* WIN CONDITION *)
    let s := if (250 <=? score s)%Z then set_gameWon true s else s in
    (e, s)
  else
    (* IGNORE OBSTACLE COLLISIONS IF PHASED *)
    if PlayerState.phaseActive (player s) then (e, s)
    else if negb (Entity.collected e) then
      let s := set_lives (lives s - 1)%Z s in
      let e := Entity.set_collected true e in
      let pos := Entity.position e in
      if BlockType_beq (Entity.type e) TNT then
        let s := set_shakeIntensity 0.5 s in
        let s := spawnParticles pos "#DB3625" 20 2.0 s in
        let s := spawnParticles pos "#FF8C00" 20 1.8 s in
        let s := spawnParticles pos "#FFFF00" 15 1.5 s in
        let s := spawnParticles pos "#FFFFFF" 10 2.5 s in
        (e, s)
      else
        let color := "#7D7D7D"%string in
        let color := if BlockType_beq (Entity.type e) CREEPER then "#0DA70D"%string else color in
        let color := if BlockType_beq (Entity.type e) SKELETON then "#E3E3E3"%string else color in
        (e, spawnParticles pos color 20 1 s)
    else (e, s).

(** The [for (const entity of this.entities)] loop: every entity object is
    visited once, [handleCollision] may mark it collected. *)
Fixpoint collisionLoop (pp : Point3D.t) (es : list Entity.t) (s : GameEngine)
    : list Entity.t * GameEngine :=
  match es with
  | [] => ([], s)
  | e :: es' =>
      let '(e', s) :=
        if Entity.collected e then (e, s)
        else if overlaps pp e then handleCollision s e
        else (e, s) in
      let '(es'', s) := collisionLoop pp es' s in
      (e' :: es'', s)
  end.

Definition checkCollisions (s : GameEngine) : GameEngine :=
  let '(es, s') := collisionLoop (PlayerState.position (player s)) (entities s) s in
  set_entities es s'.

(** 7. Update Particles *)
Definition stepParticle (p : Particle.t) : Particle.t :=
  let pos := Particle.position p in
  let v := Particle.velocity p in
  Particle.mk (Particle.id p)
    (Point3D.mk (jsnum (Point3D.x pos + Point3D.x v)) (jsnum (Point3D.y pos + Point3D.y v))
                (jsnum (Point3D.z pos + Point3D.z v)))
    (Point3D.set_y (jsnum (Point3D.y v - 0.02)) v)
    (jsnum (Particle.life p - 0.05)) (Particle.color p) (Particle.size p).

Definition updateParticles (s : GameEngine) : GameEngine :=
  set_particles (filter (fun p => Qltb 0 (Particle.life p)) (map stepParticle (particles s))) s.

(** Everything [update] does before the collision check. *)
Definition beforeCollisions (s : GameEngine) (input : Input.t) (deltaTime : Q) : GameEngine :=
  cleanup (worldGen (jumpAndGravity input (lateral input (moveForward
    (accelerate (levelUp (activatePhase input (updateAbilities deltaTime
      (decayShake s))))))))).

Definition update (s : GameEngine) (input : Input.t) (deltaTime : Q) : GameEngine :=
  if gameWon s then s
  else updateParticles (checkCollisions (beforeCollisions s input deltaTime)).

(** States reachable from a [reset(difficulty)] by [update] calls with any
    input and any time step. *)
Inductive reachable (d : Difficulty) : GameEngine -> Prop :=
| reachable_reset : forall s0, reachable d (reset d s0)
| reachable_update : forall s input deltaTime,
    reachable d s -> reachable d (update s input deltaTime).

End Engine.

(** [getState().speed] *)
Definition speed (s : GameEngine) : Q := currentSpeed s.

(** ** [src/components/GameCanvas.tsx] *)

(** The fog factor of [applyFog]:
    [Math.max(0, Math.min(1, (distance - 5) / (FOG_DISTANCE - 10)))],
    then squared. *)
Definition fogFactor (distance : Q) : Q :=
  let f := Qmax 0 (Qmin 1 ((distance - 5) / (FOG_DISTANCE - 10))) in
  f * f.

Module Canvas.
Import Reals.
Local Open Scope R_scope.

Definition FOV : R := 450.

Module Point3DR.
Record t := mk { x : R; y : R; z : R }.
End Point3DR.

(** The result [{ x: x2d, y: y2d, scale, dist: rz }]. *)
Record Projected := mkProjected { px : R; py : R; scale : R; dist : R }.

(** [project(p, camX, camY, camZ, width, height, tilt, pitch)]: [None] is
    [null]. [Math.cos] and [Math.sin] are the real cosine and sine. *)
Definition project (p : Point3DR.t) (camX camY camZ width height tilt pitch : R)
    : option Projected :=
  (* 1. Translate *)
  let rx := Point3DR.x p - camX in
  let ry := Point3DR.y p - camY in
  let rz := Point3DR.z p - camZ in
  (* 2. Rotate (Tilt - Z roll) *)
  let '(rx, ry) :=
    if Req_EM_T tilt 0 then (rx, ry)
    else (rx * cos tilt - ry * sin tilt, rx * sin tilt + ry * cos tilt) in
  (* 3. Rotate (Pitch - X axis) *)
  let '(ry, rz) :=
    if Req_EM_T pitch 0 then (ry, rz)
    else (ry * cos pitch + rz * sin pitch, - ry * sin pitch + rz * cos pitch) in
  if Rle_dec rz (1 / 10) then None
  else
    (* 4. Project *)
    let scale := FOV / rz in
    Some (mkProjected (rx * scale + width / 2) (height / 2 - ry * scale) scale rz).

(** Following the spec's words: the camera-relative point (lateral,
    vertical, depth) after the roll by [tilt] and then the pitch by
    [pitch], both applied unconditionally. *)
Definition camera_coords (p : Point3DR.t) (camX camY camZ tilt pitch : R) : R * R * R :=
  let rx := Point3DR.x p - camX in
  let ry := Point3DR.y p - camY in
  let rz := Point3DR.z p - camZ in
  let lateral := rx * cos tilt - ry * sin tilt in
  let up := rx * sin tilt + ry * cos tilt in
  (lateral, up * cos pitch + rz * sin pitch, - up * sin pitch + rz * cos pitch).
End Canvas.

(** ** [src/constants.ts]: [hexToRgb] *)

Record Rgb := mkRgb { r : Z; g : Z; b : Z }.

(** One character of the class [[a-f\d]] under the [i] flag, with its
    value for [parseInt(_, 16)]. *)
Definition hex_value (c : ascii) : option Z :=
  let n := Z.of_nat (nat_of_ascii c) in
  if ((48 <=? n) && (n <=? 57))%Z then Some (n - 48)%Z
  else if ((97 <=? n) && (n <=? 102))%Z then Some (n - 87)%Z
  else if ((65 <=? n) && (n <=? 70))%Z then Some (n - 55)%Z
  else None.

(** [parseInt(xy, 16)] of a two-digit group. *)
Definition hex_pair (c1 c2 : ascii) : option Z :=
  match hex_value c1, hex_value c2 with
  | Some h, Some l => Some (16 * h + l)%Z
  | _, _ => None
  end.

(** [/^#?([a-f\d]{2})([a-f\d]{2})([a-f\d]{2})$/i.exec(hex)], then the three
    [parseInt] calls, or [{ r: 0, g: 0, b: 0 }] when there is no match. *)
Definition strip_hash (hex : string) : string :=
  match hex with String "#"%char rest => rest | _ => hex end.

Definition hexToRgb (hex : string) : Rgb :=
  let body := strip_hash hex in
  match body with
  | String c1 (String c2 (String c3 (String c4 (String c5 (String c6 EmptyString))))) =>
      match hex_pair c1 c2, hex_pair c3 c4, hex_pair c5 c6 with
      | Some r, Some g, Some b => mkRgb r g b
      | _, _, _ => mkRgb 0 0 0
      end
  | _ => mkRgb 0 0 0
  end.

Definition SKY_COLOR_HEX : string := "#87CEEB".
Definition SKY_RGB : Rgb := hexToRgb SKY_COLOR_HEX.

(** ** [src/components/GameCanvas.tsx]: [lerp] and [applyFog] *)

Definition lerp (start end_ t : Q) : Q := start * (1 - t) + end_ * t.

(** [Math.round]: the nearest integer, halves rounded up. *)
Definition Math_round (x : Q) : Z := Qfloor (x + (1 # 2)).

(** A JavaScript integer in a template literal. *)
Definition Z_to_string (z : Z) : string := NilEmpty.string_of_int (Z.to_int z).

Definition rgb_string (r g b : Z) : string :=
  "rgb(" ++ Z_to_string r ++ "," ++ Z_to_string g ++ "," ++ Z_to_string b ++ ")".

Definition applyFog (colorHex : string) (distance : Q) : string :=
  let rgb := hexToRgb colorHex in
  let f := fogFactor distance in
  let r := Math_round (lerp (inject_Z (r rgb)) (inject_Z (r SKY_RGB)) f) in
  let g := Math_round (lerp (inject_Z (g rgb)) (inject_Z (g SKY_RGB)) f) in
  let b := Math_round (lerp (inject_Z (b rgb)) (inject_Z (b SKY_RGB)) f) in
  rgb_string r g b.

(** ** [src/App.tsx]: the high-score table of [handleGameOver] *)

Module HighScore.
Record t := mk { name : string; score : Z; difficulty : Difficulty; date : string }.
End HighScore.

Section HighScoreTable.
Local Close Scope Q_scope.

(** [Array.prototype.sort] is stable, so sorting with the comparator
    [(a, b) => b.score - a.score] has one result: the insertion sort that
    puts each element after every earlier one with a score at least as high. *)
Fixpoint insert_desc (x : HighScore.t) (l : list HighScore.t) : list HighScore.t :=
  match l with
  | [] => [x]
  | y :: l' =>
      if (HighScore.score x <=? HighScore.score y)%Z then y :: insert_desc x l' else x :: l
  end.

Definition sort_desc (l : list HighScore.t) : list HighScore.t :=
  fold_left (fun acc x => insert_desc x acc) l [].

(** [[...highScores, newScore].sort((a, b) => b.score - a.score).slice(0, 5)] *)
Definition newScores (highScores : list HighScore.t) (newScore : HighScore.t) : list HighScore.t :=
  firstn 5 (sort_desc (highScores ++ [newScore])).
End HighScoreTable.

(** ** Concrete runs *)

(** A [Math.random] stream and a [Math.sin] that are constantly 0. *)
Definition zero_random (_ : nat) : Q := 0.
Definition zero_sin (_ : Q) : Q := 0.

(** The input with only the phase key down. *)
Definition phase_input : Input.t := Input.mk false false false true.

(** The input with no key down. *)
Definition noinput : Input.t := Input.mk false false false false.

(** [n] frames of the game loop with no key down ([engine.update(input, 16)]). *)
Fixpoint run (random : nat -> Q) (sin : Q -> Q) (n : nat) (s : GameEngine) : GameEngine :=
  match n with
  | O => s
  | S k => run random sin k (update random sin s noinput 16)
  end.

(** A [Math.random] stream whose every draw of a slice puts a STONE in the
    middle lane, and never a gold block. *)
Definition rnd_c1 (n : nat) : Q := if Nat.eqb (n mod 4) 0 then 0.4 else 0.1.

(** The same for the first 56 draws (the obstacles of [reset]), then only
    empty slices. *)
Definition rnd_c2 (n : nat) : Q := if (n <? 56)%nat then rnd_c1 n else 0.9.

(** The input with only the jump key down. *)
Definition jump_input : Input.t := Input.mk false false true false.

(** A [Math.random] stream alternating 0.4 and 0.6: every slice of the
    world generation is empty or holds a gold block in the middle lane. *)
Definition rnd_c7 (n : nat) : Q := if Nat.even n then 0.4 else 0.6.

(** * Properties *)

(** ** Reading the boolean comparisons *)

Lemma Qltb_true (a b : Q) : Qltb a b = true <-> a < b.
Proof.
  unfold Qltb. rewrite negb_true_iff. split; intro H.
  - apply Qnot_le_lt. intro H'. apply Qle_bool_iff in H'. congruence.
  - destruct (Qle_bool b a) eqn:E; [apply Qle_bool_iff in E; lra | reflexivity].
Qed.

Lemma Qltb_false (a b : Q) : Qltb a b = false <-> b <= a.
Proof.
  unfold Qltb. rewrite negb_false_iff. apply Qle_bool_iff.
Qed.

Lemma Qle_bool_false (a b : Q) : Qle_bool a b = false <-> b < a.
Proof.
  split; intro H.
  - apply Qnot_le_lt. intro H'. apply Qle_bool_iff in H'. congruence.
  - destruct (Qle_bool a b) eqn:E; [apply Qle_bool_iff in E; lra | reflexivity].
Qed.

Lemma jsnum_eq (q : Q) : jsnum q == q.
Proof. apply Qred_correct. Qed.

(** Destruct every boolean test of the goal. *)
Ltac destruct_ifs :=
  repeat match goal with
         | |- context [if ?b then _ else _] => destruct b
         end.

(** ** Which stage touches which field *)

(** Reduce projections of the engine's setters, and nothing else. *)
Ltac proj_simpl :=
  cbn [fst snd map_player entities particles player lastGenZ currentSpeed score lives level difficulty particleIdCounter goldCollectedInLevel levelTarget gameWon shakeIntensity lastJumpInput lastPhaseInput rng set_entities set_particles set_player set_lastGenZ set_currentSpeed set_score set_lives set_level set_difficulty set_particleIdCounter set_goldCollectedInLevel set_levelTarget set_gameWon set_shakeIntensity set_lastJumpInput set_lastPhaseInput set_rng].

Section Frame.
Variable random : nat -> Q.
Variable sin : Q -> Q.

Lemma spawnParticles_frame pos c n m s :
  let s' := spawnParticles random pos c n m s in
  entities s' = entities s /\ player s' = player s /\ lastGenZ s' = lastGenZ s /\
  currentSpeed s' = currentSpeed s /\ score s' = score s /\ lives s' = lives s /\
  level s' = level s /\ difficulty s' = difficulty s /\
  goldCollectedInLevel s' = goldCollectedInLevel s /\ levelTarget s' = levelTarget s /\
  gameWon s' = gameWon s /\ shakeIntensity s' = shakeIntensity s /\
  lastJumpInput s' = lastJumpInput s /\ lastPhaseInput s' = lastPhaseInput s.
Proof.
  revert s. induction n as [| n IH]; intros s; cbv zeta.
  - repeat split.
  - cbn [spawnParticles draw]. cbv zeta in IH.
    match goal with
    | |- context [spawnParticles random pos c n m ?s1] =>
        destruct (IH s1) as
          (H1 & H2 & H3 & H4 & H5 & H6 & H7 & H8 & H9 & H10 & H11 & H12 & H13 & H14)
    end.
    rewrite H1, H2, H3, H4, H5, H6, H7, H8, H9, H10, H11, H12, H13, H14.
    repeat split.
Qed.

Lemma generateSlice_frame zi s :
  let s' := generateSlice random sin zi s in
  particles s' = particles s /\ player s' = player s /\ lastGenZ s' = lastGenZ s /\
  currentSpeed s' = currentSpeed s /\ score s' = score s /\ lives s' = lives s /\
  level s' = level s /\ difficulty s' = difficulty s /\
  goldCollectedInLevel s' = goldCollectedInLevel s /\ levelTarget s' = levelTarget s /\
  gameWon s' = gameWon s /\ shakeIntensity s' = shakeIntensity s /\
  lastJumpInput s' = lastJumpInput s /\ lastPhaseInput s' = lastPhaseInput s.
Proof.
  cbv zeta. unfold generateSlice, push_entity. cbv zeta.
  repeat first
    [ progress destruct_ifs
    | match goal with
      | |- context [draw random ?s0] =>
          let H := fresh "Hd" in
          assert (H : snd (draw random s0) = set_rng (S (rng s0)) s0) by reflexivity;
          destruct (draw random s0) as [?q ?X]; cbn [snd] in H; subst
      end ];
  proj_simpl; repeat split.
Qed.

End Frame.

Section FrameFields.
Variable random : nat -> Q.
Variable sin : Q -> Q.

Lemma spawnParticles_entities pos c n m s :
  entities (spawnParticles random pos c n m s) = entities s.
Proof. destruct (spawnParticles_frame random pos c n m s) as (H & _ & _ & _ & _ & _ & _ & _ & _ & _ & _ & _ & _ & _); exact H. Qed.

Lemma spawnParticles_player pos c n m s :
  player (spawnParticles random pos c n m s) = player s.
Proof. destruct (spawnParticles_frame random pos c n m s) as (_ & H & _ & _ & _ & _ & _ & _ & _ & _ & _ & _ & _ & _); exact H. Qed.

Lemma spawnParticles_lastGenZ pos c n m s :
  lastGenZ (spawnParticles random pos c n m s) = lastGenZ s.
Proof. destruct (spawnParticles_frame random pos c n m s) as (_ & _ & H & _ & _ & _ & _ & _ & _ & _ & _ & _ & _ & _); exact H. Qed.

Lemma spawnParticles_currentSpeed pos c n m s :
  currentSpeed (spawnParticles random pos c n m s) = currentSpeed s.
Proof. destruct (spawnParticles_frame random pos c n m s) as (_ & _ & _ & H & _ & _ & _ & _ & _ & _ & _ & _ & _ & _); exact H. Qed.

Lemma spawnParticles_score pos c n m s :
  score (spawnParticles random pos c n m s) = score s.
Proof. destruct (spawnParticles_frame random pos c n m s) as (_ & _ & _ & _ & H & _ & _ & _ & _ & _ & _ & _ & _ & _); exact H. Qed.

Lemma spawnParticles_lives pos c n m s :
  lives (spawnParticles random pos c n m s) = lives s.
Proof. destruct (spawnParticles_frame random pos c n m s) as (_ & _ & _ & _ & _ & H & _ & _ & _ & _ & _ & _ & _ & _); exact H. Qed.

Lemma spawnParticles_level pos c n m s :
  level (spawnParticles random pos c n m s) = level s.
Proof. destruct (spawnParticles_frame random pos c n m s) as (_ & _ & _ & _ & _ & _ & H & _ & _ & _ & _ & _ & _ & _); exact H. Qed.

Lemma spawnParticles_difficulty pos c n m s :
  difficulty (spawnParticles random pos c n m s) = difficulty s.
Proof. destruct (spawnParticles_frame random pos c n m s) as (_ & _ & _ & _ & _ & _ & _ & H & _ & _ & _ & _ & _ & _); exact H. Qed.

Lemma spawnParticles_goldCollectedInLevel pos c n m s :
  goldCollectedInLevel (spawnParticles random pos c n m s) = goldCollectedInLevel s.
Proof. destruct (spawnParticles_frame random pos c n m s) as (_ & _ & _ & _ & _ & _ & _ & _ & H & _ & _ & _ & _ & _); exact H. Qed.

Lemma spawnParticles_levelTarget pos c n m s :
  levelTarget (spawnParticles random pos c n m s) = levelTarget s.
Proof. destruct (spawnParticles_frame random pos c n m s) as (_ & _ & _ & _ & _ & _ & _ & _ & _ & H & _ & _ & _ & _); exact H. Qed.

Lemma spawnParticles_gameWon pos c n m s :
  gameWon (spawnParticles random pos c n m s) = gameWon s.
Proof. destruct (spawnParticles_frame random pos c n m s) as (_ & _ & _ & _ & _ & _ & _ & _ & _ & _ & H & _ & _ & _); exact H. Qed.

Lemma spawnParticles_shakeIntensity pos c n m s :
  shakeIntensity (spawnParticles random pos c n m s) = shakeIntensity s.
Proof. destruct (spawnParticles_frame random pos c n m s) as (_ & _ & _ & _ & _ & _ & _ & _ & _ & _ & _ & H & _ & _); exact H. Qed.

Lemma spawnParticles_lastJumpInput pos c n m s :
  lastJumpInput (spawnParticles random pos c n m s) = lastJumpInput s.
Proof. destruct (spawnParticles_frame random pos c n m s) as (_ & _ & _ & _ & _ & _ & _ & _ & _ & _ & _ & _ & H & _); exact H. Qed.

Lemma spawnParticles_lastPhaseInput pos c n m s :
  lastPhaseInput (spawnParticles random pos c n m s) = lastPhaseInput s.
Proof. destruct (spawnParticles_frame random pos c n m s) as (_ & _ & _ & _ & _ & _ & _ & _ & _ & _ & _ & _ & _ & H); exact H. Qed.

Lemma generateSlice_particles zi s :
  particles (generateSlice random sin zi s) = particles s.
Proof. destruct (generateSlice_frame random sin zi s) as (H & _ & _ & _ & _ & _ & _ & _ & _ & _ & _ & _ & _ & _); exact H. Qed.

Lemma generateSlice_player zi s :
  player (generateSlice random sin zi s) = player s.
Proof. destruct (generateSlice_frame random sin zi s) as (_ & H & _ & _ & _ & _ & _ & _ & _ & _ & _ & _ & _ & _); exact H. Qed.

Lemma generateSlice_lastGenZ zi s :
  lastGenZ (generateSlice random sin zi s) = lastGenZ s.
Proof. destruct (generateSlice_frame random sin zi s) as (_ & _ & H & _ & _ & _ & _ & _ & _ & _ & _ & _ & _ & _); exact H. Qed.

Lemma generateSlice_currentSpeed zi s :
  currentSpeed (generateSlice random sin zi s) = currentSpeed s.
Proof. destruct (generateSlice_frame random sin zi s) as (_ & _ & _ & H & _ & _ & _ & _ & _ & _ & _ & _ & _ & _); exact H. Qed.

Lemma generateSlice_score zi s :
  score (generateSlice random sin zi s) = score s.
Proof. destruct (generateSlice_frame random sin zi s) as (_ & _ & _ & _ & H & _ & _ & _ & _ & _ & _ & _ & _ & _); exact H. Qed.

Lemma generateSlice_lives zi s :
  lives (generateSlice random sin zi s) = lives s.
Proof. destruct (generateSlice_frame random sin zi s) as (_ & _ & _ & _ & _ & H & _ & _ & _ & _ & _ & _ & _ & _); exact H. Qed.

Lemma generateSlice_level zi s :
  level (generateSlice random sin zi s) = level s.
Proof. destruct (generateSlice_frame random sin zi s) as (_ & _ & _ & _ & _ & _ & H & _ & _ & _ & _ & _ & _ & _); exact H. Qed.

Lemma generateSlice_difficulty zi s :
  difficulty (generateSlice random sin zi s) = difficulty s.
Proof. destruct (generateSlice_frame random sin zi s) as (_ & _ & _ & _ & _ & _ & _ & H & _ & _ & _ & _ & _ & _); exact H. Qed.

Lemma generateSlice_goldCollectedInLevel zi s :
  goldCollectedInLevel (generateSlice random sin zi s) = goldCollectedInLevel s.
Proof. destruct (generateSlice_frame random sin zi s) as (_ & _ & _ & _ & _ & _ & _ & _ & H & _ & _ & _ & _ & _); exact H. Qed.

Lemma generateSlice_levelTarget zi s :
  levelTarget (generateSlice random sin zi s) = levelTarget s.
Proof. destruct (generateSlice_frame random sin zi s) as (_ & _ & _ & _ & _ & _ & _ & _ & _ & H & _ & _ & _ & _); exact H. Qed.

Lemma generateSlice_gameWon zi s :
  gameWon (generateSlice random sin zi s) = gameWon s.
Proof. destruct (generateSlice_frame random sin zi s) as (_ & _ & _ & _ & _ & _ & _ & _ & _ & _ & H & _ & _ & _); exact H. Qed.

Lemma generateSlice_shakeIntensity zi s :
  shakeIntensity (generateSlice random sin zi s) = shakeIntensity s.
Proof. destruct (generateSlice_frame random sin zi s) as (_ & _ & _ & _ & _ & _ & _ & _ & _ & _ & _ & H & _ & _); exact H. Qed.

Lemma generateSlice_lastJumpInput zi s :
  lastJumpInput (generateSlice random sin zi s) = lastJumpInput s.
Proof. destruct (generateSlice_frame random sin zi s) as (_ & _ & _ & _ & _ & _ & _ & _ & _ & _ & _ & _ & H & _); exact H. Qed.

Lemma generateSlice_lastPhaseInput zi s :
  lastPhaseInput (generateSlice random sin zi s) = lastPhaseInput s.
Proof. destruct (generateSlice_frame random sin zi s) as (_ & _ & _ & _ & _ & _ & _ & _ & _ & _ & _ & _ & _ & H); exact H. Qed.

End FrameFields.

(** Replace each [spawnParticles] call of the goal, innermost first, by a
    fresh state together with what [spawnParticles_frame] says of it, so
    that no later step has to unfold the particle loop. *)
Ltac gen_spawn :=
  repeat match goal with
  | |- context [spawnParticles ?r ?pos ?c ?n ?m ?s0] =>
      lazymatch s0 with
      | context [spawnParticles] => fail
      | _ =>
          let X := fresh "X" in
          let H := fresh "Hsp" in
          pose proof (spawnParticles_frame r pos c n m s0) as H; cbv zeta in H;
          revert H; generalize (spawnParticles r pos c n m s0) as X; intros X H
      end
  end.

(** The same for [generateSlice]. *)
Ltac gen_slice :=
  repeat match goal with
  | |- context [generateSlice ?r ?sn ?zi ?s0] =>
      let X := fresh "X" in
      let H := fresh "Hgs" in
      pose proof (generateSlice_frame r sn zi s0) as H; cbv zeta in H;
      revert H; generalize (generateSlice r sn zi s0) as X; intros X H
  end.

Ltac frame_finish :=
  proj_simpl; repeat match goal with H : _ |- _ => progress (cbn [fst snd map_player entities particles player lastGenZ currentSpeed score lives level difficulty particleIdCounter goldCollectedInLevel levelTarget gameWon shakeIntensity lastJumpInput lastPhaseInput rng set_entities set_particles set_player set_lastGenZ set_currentSpeed set_score set_lives set_level set_difficulty set_particleIdCounter set_goldCollectedInLevel set_levelTarget set_gameWon set_shakeIntensity set_lastJumpInput set_lastPhaseInput set_rng] in H) end;
  repeat match goal with H : _ /\ _ |- _ => destruct H end;
  repeat split; (congruence || lia).

(** As [frame_finish], for goals whose conjuncts may be implications. *)
Ltac frame_finish_imp :=
  proj_simpl; repeat match goal with H : _ |- _ => progress (cbn [fst snd map_player entities particles player lastGenZ currentSpeed score lives level difficulty particleIdCounter goldCollectedInLevel levelTarget gameWon shakeIntensity lastJumpInput lastPhaseInput rng set_entities set_particles set_player set_lastGenZ set_currentSpeed set_score set_lives set_level set_difficulty set_particleIdCounter set_goldCollectedInLevel set_levelTarget set_gameWon set_shakeIntensity set_lastJumpInput set_lastPhaseInput set_rng] in H) end;
  repeat match goal with H : _ /\ _ |- _ => destruct H end;
  repeat split; intros; (congruence || lia).

Section CollisionFrame.
Variable random : nat -> Q.

(** What a collision may change: score, gold, the win flag, lives (only
    downwards), shake, particles.  The rest is left alone. *)
Definition collision_frame (s s' : GameEngine) : Prop :=
  player s' = player s /\ lastGenZ s' = lastGenZ s /\
  currentSpeed s' = currentSpeed s /\ level s' = level s /\
  difficulty s' = difficulty s /\ levelTarget s' = levelTarget s /\
  lastJumpInput s' = lastJumpInput s /\ lastPhaseInput s' = lastPhaseInput s /\
  (lives s' <= lives s)%Z.

Lemma collision_frame_refl s : collision_frame s s.
Proof. repeat split; lia. Qed.

Lemma collision_frame_trans s1 s2 s3 :
  collision_frame s1 s2 -> collision_frame s2 s3 -> collision_frame s1 s3.
Proof.
  unfold collision_frame. intros (A1 & A2 & A3 & A4 & A5 & A6 & A7 & A8 & A9)
                                 (B1 & B2 & B3 & B4 & B5 & B6 & B7 & B8 & B9).
  repeat split; congruence || lia.
Qed.

Lemma handleCollision_frame s e :
  collision_frame s (snd (handleCollision random s e)).
Proof.
  unfold handleCollision, collision_frame. cbv zeta.
  destruct_ifs; gen_spawn; frame_finish.
Qed.

(** A relation that every single collision establishes, and that composes,
    holds across the whole loop. *)
Lemma collisionLoop_rel (R : GameEngine -> GameEngine -> Prop) :
  (forall s, R s s) -> (forall a b c, R a b -> R b c -> R a c) ->
  (forall s e, R s (snd (handleCollision random s e))) ->
  forall pp es s, R s (snd (collisionLoop random pp es s)).
Proof.
  intros Hrefl Htrans Hstep pp es. induction es as [| e es IH]; intros s; cbn [collisionLoop].
  - apply Hrefl.
  - destruct (if Entity.collected e then (e, s)
              else if overlaps pp e then handleCollision random s e else (e, s))
      as [e' s1] eqn:E.
    destruct (collisionLoop random pp es s1) as [es' s2] eqn:E2. cbn [snd].
    apply Htrans with s1.
    + destruct (Entity.collected e); [| destruct (overlaps pp e)];
        inversion E; subst; try apply Hrefl.
      change s1 with (snd (e', s1)). rewrite <- H0. apply Hstep.
    + change s2 with (snd (es', s2)). rewrite <- E2. apply IH.
Qed.

Lemma collisionLoop_frame pp es s :
  collision_frame s (snd (collisionLoop random pp es s)).
Proof.
  apply collisionLoop_rel;
    [apply collision_frame_refl | apply collision_frame_trans | apply handleCollision_frame].
Qed.

(** While the player is phased, no collision costs a life. *)
Definition phased_lives (s s' : GameEngine) : Prop :=
  player s' = player s /\
  (PlayerState.phaseActive (player s) = true -> lives s' = lives s).

Lemma handleCollision_phased s e : phased_lives s (snd (handleCollision random s e)).
Proof.
  unfold handleCollision, phased_lives. cbv zeta. proj_simpl.
  destruct_ifs; gen_spawn; frame_finish_imp.
Qed.

Lemma collisionLoop_phased pp es s : phased_lives s (snd (collisionLoop random pp es s)).
Proof.
  apply collisionLoop_rel.
  - intro. split; reflexivity.
  - unfold phased_lives. intros a b c [Hab Lab] [Hbc Lbc]. split; [congruence|].
    intro Ha. rewrite Lbc, Lab; [reflexivity | exact Ha | congruence].
  - apply handleCollision_phased.
Qed.

Lemma checkCollisions_frame s :
  collision_frame s (checkCollisions random s).
Proof.
  unfold checkCollisions.
  pose proof (collisionLoop_frame (PlayerState.position (player s)) (entities s) s) as H.
  destruct (collisionLoop random _ (entities s) s) as [es s']. exact H.
Qed.

Lemma checkCollisions_phased s : phased_lives s (checkCollisions random s).
Proof.
  unfold checkCollisions.
  pose proof (collisionLoop_phased (PlayerState.position (player s)) (entities s) s) as H.
  destruct (collisionLoop random _ (entities s) s) as [es s']. exact H.
Qed.

End CollisionFrame.

Section StageFrames.
Variable random : nat -> Q.
Variable sin : Q -> Q.

(** The fields that only leveling, acceleration and collisions change. *)
Definition keeps_core (s s' : GameEngine) : Prop :=
  currentSpeed s' = currentSpeed s /\ level s' = level s /\
  difficulty s' = difficulty s /\ levelTarget s' = levelTarget s /\
  goldCollectedInLevel s' = goldCollectedInLevel s /\
  gameWon s' = gameWon s /\ lives s' = lives s /\ score s' = score s.

Ltac stage_frame :=
  cbv zeta; proj_simpl; destruct_ifs; gen_spawn; gen_slice; frame_finish.

Lemma decayShake_core s : keeps_core s (decayShake s).
Proof. unfold keeps_core, decayShake. stage_frame. Qed.

Lemma updateAbilities_core dt s : keeps_core s (updateAbilities dt s).
Proof. unfold keeps_core, updateAbilities. stage_frame. Qed.

Lemma activatePhase_core input s : keeps_core s (activatePhase random input s).
Proof. unfold keeps_core, activatePhase. stage_frame. Qed.

Lemma moveForward_core s : keeps_core s (moveForward s).
Proof. unfold keeps_core, moveForward. stage_frame. Qed.

Lemma lateral_core input s : keeps_core s (lateral input s).
Proof. unfold keeps_core, lateral. stage_frame. Qed.

Lemma jumpAndGravity_core input s : keeps_core s (jumpAndGravity random input s).
Proof. unfold keeps_core, jumpAndGravity. stage_frame. Qed.

Lemma worldGen_core s : keeps_core s (worldGen random sin s).
Proof. unfold keeps_core, worldGen. stage_frame. Qed.

Lemma cleanup_core s : keeps_core s (cleanup s).
Proof. unfold keeps_core, cleanup. stage_frame. Qed.

Lemma updateParticles_core s : keeps_core s (updateParticles s).
Proof. unfold keeps_core, updateParticles. stage_frame. Qed.

(** The stages that leave the player alone. *)
Lemma decayShake_player s : player (decayShake s) = player s.
Proof. unfold decayShake. stage_frame. Qed.

Lemma levelUp_player s : player (levelUp s) = player s.
Proof. unfold levelUp. stage_frame. Qed.

Lemma accelerate_player s : player (accelerate s) = player s.
Proof. unfold accelerate. stage_frame. Qed.

Lemma worldGen_player s : player (worldGen random sin s) = player s.
Proof. unfold worldGen. stage_frame. Qed.

Lemma cleanup_player s : player (cleanup s) = player s.
Proof. unfold cleanup. stage_frame. Qed.

Lemma updateParticles_player s : player (updateParticles s) = player s.
Proof. unfold updateParticles. stage_frame. Qed.

Lemma checkCollisions_player s : player (checkCollisions random s) = player s.
Proof. apply (checkCollisions_frame random s). Qed.

(** The stages that move the player. *)
Lemma updateAbilities_player_eq dt s :
  player (updateAbilities dt s) = updateAbilities_player dt (player s).
Proof. reflexivity. Qed.

Lemma activatePhase_player input s :
  player (activatePhase random input s) =
  if Input.phase input && negb (lastPhaseInput s)
     && Qle_bool (PlayerState.phaseCooldown (player s)) 0
  then PlayerState.set_phaseCooldown 10000
         (PlayerState.set_phaseTimeRemaining 5000
            (PlayerState.set_phaseActive true (player s)))
  else player s.
Proof. unfold activatePhase. stage_frame. Qed.

Lemma moveForward_player s :
  player (moveForward s) =
  PlayerState.set_position
    (Point3D.set_z (jsnum (Point3D.z (PlayerState.position (player s)) + currentSpeed s))
       (PlayerState.position (player s))) (player s).
Proof. reflexivity. Qed.

Lemma lateral_player_eq input s : player (lateral input s) = lateral_player input (player s).
Proof. reflexivity. Qed.

Lemma jumpAndGravity_player input s :
  player (jumpAndGravity random input s) =
  gravity_player
    (if Input.jump input && negb (lastJumpInput s) then
       if negb (PlayerState.isJumping (player s)) then firstJump (player s)
       else if (PlayerState.jumpCount (player s) <? 2)%Z then doubleJump (player s)
       else player s
     else player s).
Proof. unfold jumpAndGravity. stage_frame. Qed.

Lemma jumpAndGravity_lastJumpInput input s :
  lastJumpInput (jumpAndGravity random input s) = Input.jump input.
Proof. unfold jumpAndGravity. stage_frame. Qed.

(** What the stages before the collision step never change. *)
Definition keeps_outcome (s s' : GameEngine) : Prop :=
  lives s' = lives s /\ score s' = score s /\ gameWon s' = gameWon s /\
  difficulty s' = difficulty s.

Lemma keeps_outcome_refl s : keeps_outcome s s.
Proof. unfold keeps_outcome. repeat split. Qed.

Lemma keeps_outcome_trans a b c :
  keeps_outcome a b -> keeps_outcome b c -> keeps_outcome a c.
Proof. unfold keeps_outcome. intros (? & ? & ? & ?) (? & ? & ? & ?). repeat split; congruence. Qed.

Lemma core_outcome s s' : keeps_core s s' -> keeps_outcome s s'.
Proof. unfold keeps_core, keeps_outcome. intros (? & ? & ? & ? & ? & ? & ? & ?). repeat split; assumption. Qed.

Lemma levelUp_outcome s : keeps_outcome s (levelUp s).
Proof. unfold keeps_outcome, levelUp. stage_frame. Qed.

Lemma accelerate_outcome s : keeps_outcome s (accelerate s).
Proof. unfold keeps_outcome, accelerate. stage_frame. Qed.

Create HintDb stages.
#[local] Hint Resolve decayShake_core updateAbilities_core activatePhase_core
  moveForward_core lateral_core jumpAndGravity_core worldGen_core cleanup_core
  updateParticles_core levelUp_outcome accelerate_outcome : stages.

Lemma beforeCollisions_outcome s input dt :
  keeps_outcome s (beforeCollisions random sin s input dt).
Proof.
  unfold beforeCollisions.
  repeat (eapply keeps_outcome_trans;
          [| first [ solve [eauto with stages] | apply core_outcome; solve [eauto with stages] ] ]).
  apply keeps_outcome_refl.
Qed.

End StageFrames.

(** [reset] runs [generateSlice] over the first slices: every field that
    [generateSlice] keeps, [generateSlices] keeps. *)
Lemma generateSlices_keeps {A} random sin (f : GameEngine -> A) zs s :
  (forall zi s, f (generateSlice random sin zi s) = f s) ->
  f (generateSlices random sin zs s) = f s.
Proof.
  intro Hf. unfold generateSlices. revert s.
  induction zs as [|zi zs IH]; intro s; [reflexivity|].
  cbn [fold_left]. rewrite IH. apply Hf.
Qed.

(** ** The player's phase ability *)

(** Reduce projections of the player's setters. *)
Ltac player_simpl := cbn [PlayerState.position PlayerState.velocity PlayerState.isJumping PlayerState.tilt PlayerState.jumpCount PlayerState.phaseActive PlayerState.phaseTimeRemaining PlayerState.phaseCooldown PlayerState.set_position PlayerState.set_velocity PlayerState.set_isJumping PlayerState.set_tilt PlayerState.set_jumpCount PlayerState.set_phaseActive PlayerState.set_phaseTimeRemaining PlayerState.set_phaseCooldown Point3D.x Point3D.y Point3D.z Point3D.set_x Point3D.set_y Point3D.set_z set_vy].
Ltac player_simpl_in H := cbn [PlayerState.position PlayerState.velocity PlayerState.isJumping PlayerState.tilt PlayerState.jumpCount PlayerState.phaseActive PlayerState.phaseTimeRemaining PlayerState.phaseCooldown PlayerState.set_position PlayerState.set_velocity PlayerState.set_isJumping PlayerState.set_tilt PlayerState.set_jumpCount PlayerState.set_phaseActive PlayerState.set_phaseTimeRemaining PlayerState.set_phaseCooldown Point3D.x Point3D.y Point3D.z Point3D.set_x Point3D.set_y Point3D.set_z set_vy] in H.

Definition phase_of (p : PlayerState.t) : bool * Q :=
  (PlayerState.phaseActive p, PlayerState.phaseTimeRemaining p).

Lemma lateral_player_phase input p : phase_of (lateral_player input p) = phase_of p.
Proof. unfold lateral_player. cbv zeta. destruct_ifs; reflexivity. Qed.

Lemma gravity_player_phase p : phase_of (gravity_player p) = phase_of p.
Proof. unfold gravity_player. cbv zeta. destruct_ifs; reflexivity. Qed.

Lemma firstJump_phase p : phase_of (firstJump p) = phase_of p.
Proof. reflexivity. Qed.

Lemma doubleJump_phase p : phase_of (doubleJump p) = phase_of p.
Proof. reflexivity. Qed.

(** The invariant: the flag is up exactly while time remains. *)
Definition phase_iff (p : PlayerState.t) : Prop :=
  PlayerState.phaseActive p = true <-> 0 < PlayerState.phaseTimeRemaining p.

Lemma phase_iff_of p q : phase_of p = phase_of q -> phase_iff q -> phase_iff p.
Proof.
  unfold phase_of, phase_iff. intros H. injection H as H1 H2.
  rewrite H1, H2. tauto.
Qed.

Lemma updateAbilities_player_phase dt p :
  phase_iff p -> phase_iff (updateAbilities_player dt p).
Proof.
  unfold phase_iff, updateAbilities_player. intro H. cbv zeta.
  destruct (Qltb 0 (PlayerState.phaseTimeRemaining p)) eqn:E1.
  - apply Qltb_true in E1.
    player_simpl.
    destruct (Qle_bool (jsnum (PlayerState.phaseTimeRemaining p - dt)) 0) eqn:E2.
    + apply Qle_bool_iff in E2.
      destruct (Qltb 0 _); player_simpl;
        split; intro H'; first [discriminate | exfalso; lra].
    + apply Qle_bool_false in E2.
      assert (PlayerState.phaseActive p = true) by (apply H; exact E1).
      destruct (Qltb 0 _); player_simpl;
        split; intro; assumption.
  - apply Qltb_false in E1.
    assert (PlayerState.phaseActive p = false).
    { destruct (PlayerState.phaseActive p) eqn:Ea; [|reflexivity].
      exfalso. pose proof (proj1 H eq_refl). lra. }
    destruct (Qltb 0 _); player_simpl;
      split; intro H'; first [congruence | exfalso; lra].
Qed.

Lemma activation_phase p :
  phase_iff (PlayerState.set_phaseCooldown 10000
               (PlayerState.set_phaseTimeRemaining 5000
                  (PlayerState.set_phaseActive true p))).
Proof. unfold phase_iff. cbn. split; intro; [reflexivity|]. reflexivity. Qed.

Section PhaseInvariant.
Variable random : nat -> Q.
Variable sin : Q -> Q.

Lemma jumpAndGravity_phase input t :
  phase_of (player (jumpAndGravity random input t)) = phase_of (player t).
Proof.
  rewrite jumpAndGravity_player, gravity_player_phase. destruct_ifs; reflexivity.
Qed.

Lemma lateral_phase input t : phase_of (player (lateral input t)) = phase_of (player t).
Proof. rewrite lateral_player_eq. apply lateral_player_phase. Qed.

Lemma moveForward_phase t : phase_of (player (moveForward t)) = phase_of (player t).
Proof. reflexivity. Qed.

Lemma activatePhase_phase input t :
  phase_iff (player t) -> phase_iff (player (activatePhase random input t)).
Proof.
  intro H. rewrite activatePhase_player. destruct_ifs; [apply activation_phase|exact H].
Qed.

Lemma beforeCollisions_phase s input dt :
  phase_iff (player s) -> phase_iff (player (beforeCollisions random sin s input dt)).
Proof.
  intro H. unfold beforeCollisions.
  rewrite cleanup_player, worldGen_player.
  eapply phase_iff_of; [rewrite jumpAndGravity_phase, lateral_phase, moveForward_phase; reflexivity|].
  rewrite accelerate_player, levelUp_player.
  apply activatePhase_phase.
  rewrite updateAbilities_player_eq, decayShake_player.
  apply updateAbilities_player_phase. exact H.
Qed.
Lemma update_phase s input dt :
  phase_iff (player s) -> phase_iff (player (update random sin s input dt)).
Proof.
  intro H. unfold update. destruct (gameWon s); [exact H|].
  rewrite updateParticles_player, checkCollisions_player.
  apply beforeCollisions_phase. exact H.
Qed.

Lemma reset_player d s0 : player (reset random sin d s0) = initial_player.
Proof.
  unfold reset. cbv zeta.
  rewrite (generateSlices_keeps random sin player); [reflexivity|].
  apply generateSlice_player.
Qed.

Lemma reachable_phase d s : reachable random sin d s -> phase_iff (player s).
Proof.
  induction 1.
  - rewrite reset_player. unfold phase_iff. cbn. split; intro H; [discriminate|].
    exfalso. apply (Qlt_irrefl 0). exact H.
  - apply update_phase. assumption.
Qed.

End PhaseInvariant.

(** ** Speed *)

Definition speed_cap (s : GameEngine) : Q :=
  maxSpeed (DIFFICULTY_SETTINGS (difficulty s)) + 0.2.

Definition speed_ok (s : GameEngine) : Prop := currentSpeed s <= speed_cap s.

(** Across a stage the difficulty is kept and, below the cap, speed does
    not decrease and stays below the cap. *)
Definition speed_step (s s' : GameEngine) : Prop :=
  difficulty s' = difficulty s /\
  (speed_ok s -> currentSpeed s <= currentSpeed s' /\ speed_ok s').

Lemma speed_step_refl s : speed_step s s.
Proof. unfold speed_step. split; [reflexivity|]. split; [apply Qle_refl | assumption]. Qed.

Lemma speed_step_trans a b c : speed_step a b -> speed_step b c -> speed_step a c.
Proof.
  unfold speed_step. intros (D1 & K1) (D2 & K2). split; [congruence|].
  intro H. destruct (K1 H) as [L1 H1]. destruct (K2 H1) as [L2 H2].
  split; [eapply Qle_trans; eassumption | exact H2].
Qed.

Lemma core_speed_step s s' : keeps_core s s' -> speed_step s s'.
Proof.
  unfold keeps_core, speed_step, speed_ok, speed_cap.
  intros (-> & _ & -> & _). split; [reflexivity|]. intro H. split; [apply Qle_refl | exact H].
Qed.

Lemma collision_speed_step s s' : collision_frame s s' -> speed_step s s'.
Proof.
  unfold collision_frame, speed_step, speed_ok, speed_cap.
  intros (_ & _ & -> & _ & -> & _). split; [reflexivity|]. intro H. split; [apply Qle_refl | exact H].
Qed.

Lemma settings_bounds d :
  0 < accel (DIFFICULTY_SETTINGS d) <= 0.2 /\
  startSpeed (DIFFICULTY_SETTINGS d) <= maxSpeed (DIFFICULTY_SETTINGS d).
Proof. destruct d; cbn; repeat split; unfold Qlt, Qle; cbn; lia. Qed.

Lemma levelUp_speed_step s : speed_step s (levelUp s).
Proof.
  unfold levelUp, speed_step, speed_ok, speed_cap. cbv zeta. proj_simpl.
  destruct_ifs; proj_simpl; (split; [reflexivity|]); intro H.
  - rewrite !jsnum_eq. split; [apply Q.min_glb; lra | apply Q.le_min_r].
  - split; [apply Qle_refl | exact H].
  - split; [apply Qle_refl | exact H].
Qed.

Lemma targetSpeed_le s : targetSpeed s <= maxSpeed (DIFFICULTY_SETTINGS (difficulty s)).
Proof.
  unfold targetSpeed. destruct (negb _).
  - apply Q.le_min_r.
  - apply (settings_bounds (difficulty s)).
Qed.

Lemma accelerate_speed_step s : speed_step s (accelerate s).
Proof.
  unfold accelerate, speed_step, speed_ok, speed_cap. cbv zeta.
  destruct (settings_bounds (difficulty s)) as [[A0 A1] _].
  pose proof (targetSpeed_le s) as T.
  destruct (Qltb (currentSpeed s) (targetSpeed s)) eqn:E; proj_simpl;
    (split; [reflexivity|]); intro H.
  - apply Qltb_true in E. rewrite jsnum_eq. split; lra.
  - split; [apply Qle_refl | exact H].
Qed.

Section Speed.
Variable random : nat -> Q.
Variable sin : Q -> Q.

Lemma update_speed_step s input dt : speed_step s (update random sin s input dt).
Proof.
  unfold update. destruct (gameWon s); [apply speed_step_refl|].
  eapply speed_step_trans; [| apply core_speed_step, updateParticles_core].
  eapply speed_step_trans; [| apply collision_speed_step, checkCollisions_frame].
  unfold beforeCollisions.
  eapply speed_step_trans; [| apply core_speed_step, cleanup_core].
  eapply speed_step_trans; [| apply core_speed_step, worldGen_core].
  eapply speed_step_trans; [| apply core_speed_step, jumpAndGravity_core].
  eapply speed_step_trans; [| apply core_speed_step, lateral_core].
  eapply speed_step_trans; [| apply core_speed_step, moveForward_core].
  eapply speed_step_trans; [| apply accelerate_speed_step].
  eapply speed_step_trans; [| apply levelUp_speed_step].
  eapply speed_step_trans; [| apply core_speed_step, activatePhase_core].
  eapply speed_step_trans; [| apply core_speed_step, updateAbilities_core].
  apply core_speed_step, decayShake_core.
Qed.

Lemma reset_speed_ok d s0 : speed_ok (reset random sin d s0).
Proof.
  unfold speed_ok, speed_cap, reset. cbv zeta.
  rewrite (generateSlices_keeps random sin currentSpeed) by apply generateSlice_currentSpeed.
  rewrite (generateSlices_keeps random sin difficulty) by apply generateSlice_difficulty.
  cbn [currentSpeed difficulty].
  destruct (settings_bounds d) as [_ H]. lra.
Qed.

Lemma reachable_speed_ok d s : reachable random sin d s -> speed_ok s.
Proof.
  induction 1.
  - apply reset_speed_ok.
  - apply (proj2 (update_speed_step s input deltaTime) IHreachable).
Qed.
End Speed.

(** ** Where entities sit *)

(** Every entity is a ground block one unit below the track, or sits at
    slice 11 or further with size at most 1. *)
Definition entity_far (e : Entity.t) : Prop :=
  (Point3D.y (Entity.position e) == -1 /\ Entity.size e == 1) \/
  (11 <= Point3D.z (Entity.position e) /\ 0 <= Entity.size e <= 1).

Lemma overlaps_far pp e :
  entity_far e -> 0 <= Point3D.y pp -> Point3D.z pp < 10.2 -> overlaps pp e = false.
Proof.
  intros Hf Hy Hz. unfold overlaps. cbv zeta. unfold Qdiv. change (Qinv 2) with (1#2).
  destruct Hf as [[Ey Es] | [Ez Es]].
  - destruct (Qltb (Qabs _) _); cbn [andb]; [|reflexivity].
    apply andb_false_intro1. apply Qltb_false.
    rewrite Ey, Es.
    apply Qle_trans with (Point3D.y pp - -1); [lra | apply Qle_Qabs].
  - apply andb_false_intro2. apply Qltb_false.
    apply Qle_trans with (- (Point3D.z pp - Point3D.z (Entity.position e))).
    + lra.
    + rewrite <- Qabs_opp. apply Qle_Qabs.
Qed.

Lemma collisionLoop_nohit random pp es s :
  Forall (fun e => overlaps pp e = false) es -> collisionLoop random pp es s = (es, s).
Proof.
  revert s. induction es as [|e es IH]; intros s H; [reflexivity|].
  inversion H as [|? ? He Hes]; subst. cbn [collisionLoop].
  rewrite He. destruct (Entity.collected e); rewrite (IH s Hes); reflexivity.
Qed.

Lemma checkCollisions_nohit random s :
  Forall entity_far (entities s) ->
  0 <= Point3D.y (PlayerState.position (player s)) ->
  Point3D.z (PlayerState.position (player s)) < 10.2 ->
  checkCollisions random s = set_entities (entities s) s.
Proof.
  intros Hf Hy Hz. unfold checkCollisions.
  rewrite collisionLoop_nohit; [reflexivity|].
  eapply Forall_impl; [|exact Hf]. intros e He. apply overlaps_far; assumption.
Qed.

Lemma ground_row_far zi : Forall entity_far (ground_row zi).
Proof.
  unfold ground_row. apply Forall_map.
  repeat constructor; left; split; reflexivity.
Qed.

Section Far.
Variable random : nat -> Q.
Variable sin : Q -> Q.

Lemma generateSlice_far zi s :
  Forall entity_far (entities s) -> Forall entity_far (entities (generateSlice random sin zi s)).
Proof.
  intro H. unfold generateSlice, push_entity. cbv zeta.
  assert (Hg : Forall entity_far (entities s ++ ground_row zi))
    by (apply Forall_app; split; [exact H | apply ground_row_far]).
  destruct (10 <? zi)%Z eqn:Ez; [| exact Hg].
  apply Z.ltb_lt in Ez.
  assert (Hz : 11 <= inject_Z zi)
    by (rewrite <- (Qle_bool_iff 11), Qle_bool_iff; unfold Qle; cbn; lia).
  repeat first
    [ progress destruct_ifs
    | match goal with
      | |- context [draw random ?s0] =>
          let H := fresh "Hd" in
          assert (H : snd (draw random s0) = set_rng (S (rng s0)) s0) by reflexivity;
          destruct (draw random s0) as [?q ?X]; cbn [snd] in H; subst
      end ];
  proj_simpl; rewrite <- ?app_assoc;
  repeat (apply Forall_app; split);
  first [ exact H | apply ground_row_far
        | apply Forall_cons; [right; cbn [Entity.position Entity.size Point3D.z]; split;
                              [exact Hz | split; unfold Qle; cbn; lia] | apply Forall_nil] ].
Qed.
End Far.

Section FarStages.
Variable random : nat -> Q.
Variable sin : Q -> Q.

Ltac stage_frame' :=
  cbv zeta; proj_simpl; destruct_ifs; gen_spawn; gen_slice; frame_finish.

(** The stages other than world generation, cleanup and collisions leave
    the entity list alone. *)
Definition keeps_entities (s s' : GameEngine) : Prop := entities s' = entities s.

Lemma decayShake_entities s : keeps_entities s (decayShake s).
Proof. unfold keeps_entities, decayShake. stage_frame'. Qed.
Lemma updateAbilities_entities dt s : keeps_entities s (updateAbilities dt s).
Proof. reflexivity. Qed.
Lemma activatePhase_entities input s : keeps_entities s (activatePhase random input s).
Proof. unfold keeps_entities, activatePhase. stage_frame'. Qed.
Lemma levelUp_entities s : keeps_entities s (levelUp s).
Proof. unfold keeps_entities, levelUp. stage_frame'. Qed.
Lemma accelerate_entities s : keeps_entities s (accelerate s).
Proof. unfold keeps_entities, accelerate. stage_frame'. Qed.
Lemma moveForward_entities s : keeps_entities s (moveForward s).
Proof. reflexivity. Qed.
Lemma lateral_entities input s : keeps_entities s (lateral input s).
Proof. reflexivity. Qed.
Lemma jumpAndGravity_entities input s : keeps_entities s (jumpAndGravity random input s).
Proof. unfold keeps_entities, jumpAndGravity. stage_frame'. Qed.
Lemma updateParticles_entities s : keeps_entities s (updateParticles s).
Proof. reflexivity. Qed.

Lemma worldGen_far s :
  Forall entity_far (entities s) -> Forall entity_far (entities (worldGen random sin s)).
Proof.
  intro H. unfold worldGen. cbv zeta. destruct_ifs; [|exact H].
  cbn [entities set_lastGenZ]. apply generateSlice_far. exact H.
Qed.

Lemma cleanup_far s :
  Forall entity_far (entities s) -> Forall entity_far (entities (cleanup s)).
Proof.
  intro H. unfold cleanup. cbn [entities set_entities].
  apply Forall_forall. intros e He. apply filter_In in He.
  rewrite Forall_forall in H. apply H, He.
Qed.

Lemma entity_far_collected e b : entity_far e -> entity_far (Entity.set_collected b e).
Proof. exact (fun H => H). Qed.

Lemma handleCollision_far s e : entity_far e -> entity_far (fst (handleCollision random s e)).
Proof.
  intro H. unfold handleCollision. cbv zeta. destruct_ifs; exact H.
Qed.

Lemma collisionLoop_far pp es s :
  Forall entity_far es -> Forall entity_far (fst (collisionLoop random pp es s)).
Proof.
  revert s. induction es as [|e es IH]; intros s H; [constructor|].
  inversion H as [|? ? He Hes]; subst. cbn [collisionLoop].
  destruct (if Entity.collected e then (e, s)
            else if overlaps pp e then handleCollision random s e else (e, s))
    as [e' s1] eqn:E.
  pose proof (IH s1 Hes) as IH1.
  destruct (collisionLoop random pp es s1) as [es' s2]. cbn [fst] in *.
  constructor; [|exact IH1].
  destruct (Entity.collected e); [|destruct (overlaps pp e)]; inversion E; subst;
    try exact He.
  change e' with (fst (e', s1)). rewrite <- H1. apply handleCollision_far, He.
Qed.

Lemma checkCollisions_far s :
  Forall entity_far (entities s) -> Forall entity_far (entities (checkCollisions random s)).
Proof.
  intro H. unfold checkCollisions.
  pose proof (collisionLoop_far (PlayerState.position (player s)) (entities s) s H) as H'.
  destruct (collisionLoop random _ (entities s) s) as [es s']. exact H'.
Qed.

Lemma beforeCollisions_far s input dt :
  Forall entity_far (entities s) ->
  Forall entity_far (entities (beforeCollisions random sin s input dt)).
Proof.
  intro H. unfold beforeCollisions.
  apply cleanup_far, worldGen_far.
  rewrite jumpAndGravity_entities, lateral_entities, moveForward_entities,
    accelerate_entities, levelUp_entities, activatePhase_entities,
    updateAbilities_entities, decayShake_entities.
  exact H.
Qed.

Lemma update_far s input dt :
  Forall entity_far (entities s) ->
  Forall entity_far (entities (update random sin s input dt)).
Proof.
  intro H. unfold update. destruct (gameWon s); [exact H|].
  rewrite updateParticles_entities. apply checkCollisions_far, beforeCollisions_far, H.
Qed.

Lemma reset_far d s0 : Forall entity_far (entities (reset random sin d s0)).
Proof.
  unfold reset, generateSlices. cbv zeta.
  generalize (map Z.of_nat (seq 0 25)).
  match goal with |- forall l, Forall entity_far (entities (fold_left _ l ?s1)) =>
    assert (H : Forall entity_far (entities s1)) by constructor; revert H; generalize s1 end.
  intros s1 H l. revert s1 H. induction l as [|zi l IH]; intros s1 H; [exact H|].
  cbn [fold_left]. apply IH, generateSlice_far, H.
Qed.

Lemma reachable_far d s : reachable random sin d s -> Forall entity_far (entities s).
Proof.
  induction 1; [apply reset_far | apply update_far; assumption].
Qed.
End FarStages.

(** ** The player's vertical motion *)

Definition vert (p : PlayerState.t) : Q * Q * bool * Z :=
  (Point3D.y (PlayerState.position p), Point3D.y (PlayerState.velocity p),
   PlayerState.isJumping p, PlayerState.jumpCount p).

(** The jump branch of [update], on a rising edge of the jump key. *)
Definition jump_select (pressed : bool) (p : PlayerState.t) : PlayerState.t :=
  if pressed then
    if negb (PlayerState.isJumping p) then firstJump p
    else if (PlayerState.jumpCount p <? 2)%Z then doubleJump p
    else p
  else p.

Lemma vert_gravity p q : vert p = vert q -> vert (gravity_player p) = vert (gravity_player q).
Proof.
  destruct p as [[px py pz] [vx vy vz] j t c a r cd], q as [[qx qy qz] [wx wy wz] j' t' c' a' r' cd'].
  unfold vert. cbn. intro H. injection H as -> -> -> ->.
  unfold gravity_player, set_vy. cbn. destruct_ifs; reflexivity.
Qed.

Lemma vert_select b p q : vert p = vert q -> vert (jump_select b p) = vert (jump_select b q).
Proof.
  destruct p as [[px py pz] [vx vy vz] j t c a r cd], q as [[qx qy qz] [wx wy wz] j' t' c' a' r' cd'].
  unfold vert. cbn. intro H. injection H as -> -> -> ->.
  unfold jump_select, firstJump, doubleJump, set_vy. cbn. destruct_ifs; reflexivity.
Qed.

Lemma updateAbilities_player_vert dt p : vert (updateAbilities_player dt p) = vert p.
Proof. unfold updateAbilities_player. cbv zeta. destruct_ifs; reflexivity. Qed.

Lemma lateral_player_vert input p : vert (lateral_player input p) = vert p.
Proof. unfold lateral_player. cbv zeta. destruct_ifs; reflexivity. Qed.

Definition pos_z (p : PlayerState.t) : Q := Point3D.z (PlayerState.position p).

Lemma updateAbilities_player_z dt p : pos_z (updateAbilities_player dt p) = pos_z p.
Proof. unfold updateAbilities_player. cbv zeta. destruct_ifs; reflexivity. Qed.

Lemma lateral_player_z input p : pos_z (lateral_player input p) = pos_z p.
Proof. unfold lateral_player. cbv zeta. destruct_ifs; reflexivity. Qed.

Lemma gravity_player_z p : pos_z (gravity_player p) = pos_z p.
Proof. unfold gravity_player. cbv zeta. destruct_ifs; reflexivity. Qed.

Lemma jump_select_z b p : pos_z (jump_select b p) = pos_z p.
Proof. unfold jump_select. destruct_ifs; reflexivity. Qed.

Lemma gravity_player_y p : 0 <= Point3D.y (PlayerState.position (gravity_player p)).
Proof.
  unfold gravity_player. cbv zeta.
  destruct (Qle_bool _ 0) eqn:E; cbn; [apply Qle_refl|].
  apply Qle_bool_false in E. apply Qlt_le_weak. exact E.
Qed.

Section Vertical.
Variable random : nat -> Q.
Variable sin : Q -> Q.

Ltac stage_frame' :=
  cbv zeta; proj_simpl; destruct_ifs; gen_spawn; gen_slice; frame_finish.

Definition keeps_jump (s s' : GameEngine) : Prop := lastJumpInput s' = lastJumpInput s.

Lemma decayShake_jump s : keeps_jump s (decayShake s).
Proof. unfold keeps_jump, decayShake. stage_frame'. Qed.
Lemma activatePhase_jump input s : keeps_jump s (activatePhase random input s).
Proof. unfold keeps_jump, activatePhase. stage_frame'. Qed.
Lemma levelUp_jump s : keeps_jump s (levelUp s).
Proof. unfold keeps_jump, levelUp. stage_frame'. Qed.
Lemma accelerate_jump s : keeps_jump s (accelerate s).
Proof. unfold keeps_jump, accelerate. stage_frame'. Qed.
Lemma worldGen_jump s : keeps_jump s (worldGen random sin s).
Proof. unfold keeps_jump, worldGen. stage_frame'. Qed.

(** Up to the jump stage, [update] leaves the vertical state and the jump
    latch as they were. *)
Definition upToJump (s : GameEngine) (input : Input.t) (dt : Q) : GameEngine :=
  lateral input (moveForward (accelerate (levelUp (activatePhase random input
    (updateAbilities dt (decayShake s)))))).

Lemma upToJump_vert s input dt : vert (player (upToJump s input dt)) = vert (player s).
Proof.
  unfold upToJump. rewrite lateral_player_eq, lateral_player_vert.
  rewrite moveForward_player. change (vert (player (accelerate (levelUp (activatePhase random input
    (updateAbilities dt (decayShake s)))))) = vert (player s)).
  rewrite accelerate_player, levelUp_player, activatePhase_player.
  destruct_ifs; rewrite updateAbilities_player_eq, decayShake_player;
    apply updateAbilities_player_vert.
Qed.

Lemma upToJump_jump s input dt : lastJumpInput (upToJump s input dt) = lastJumpInput s.
Proof.
  unfold upToJump. cbn [lateral moveForward map_player lastJumpInput set_player].
  rewrite accelerate_jump, levelUp_jump, activatePhase_jump. apply decayShake_jump.
Qed.

Lemma beforeCollisions_upToJump s input dt :
  beforeCollisions random sin s input dt =
  cleanup (worldGen random sin (jumpAndGravity random input (upToJump s input dt))).
Proof. reflexivity. Qed.

Lemma beforeCollisions_player s input dt :
  player (beforeCollisions random sin s input dt) =
  gravity_player (jump_select (Input.jump input && negb (lastJumpInput s))
                    (player (upToJump s input dt))).
Proof.
  rewrite beforeCollisions_upToJump, cleanup_player, worldGen_player, jumpAndGravity_player,
    upToJump_jump.
  reflexivity.
Qed.

Lemma update_player s input dt :
  gameWon s = false ->
  player (update random sin s input dt) =
  gravity_player (jump_select (Input.jump input && negb (lastJumpInput s))
                    (player (upToJump s input dt))).
Proof.
  intro Hw. unfold update. rewrite Hw.
  rewrite updateParticles_player, checkCollisions_player. apply beforeCollisions_player.
Qed.

Lemma update_vert s input dt :
  gameWon s = false ->
  vert (player (update random sin s input dt)) =
  vert (gravity_player (jump_select (Input.jump input && negb (lastJumpInput s)) (player s))).
Proof.
  intro Hw. rewrite update_player by exact Hw.
  apply vert_gravity, vert_select, upToJump_vert.
Qed.

Lemma updateParticles_jump s : keeps_jump s (updateParticles s).
Proof. reflexivity. Qed.
Lemma cleanup_jump s : keeps_jump s (cleanup s).
Proof. reflexivity. Qed.

Lemma update_lastJumpInput s input dt :
  gameWon s = false -> lastJumpInput (update random sin s input dt) = Input.jump input.
Proof.
  intro Hw. unfold update. rewrite Hw.
  rewrite updateParticles_jump.
  destruct (checkCollisions_frame random (beforeCollisions random sin s input dt))
    as (_ & _ & _ & _ & _ & _ & -> & _).
  rewrite beforeCollisions_upToJump, cleanup_jump, worldGen_jump.
  apply jumpAndGravity_lastJumpInput.
Qed.
(** Up to the jump stage: speed and difficulty as in [update_speed_step]. *)
Lemma upToSpeed_step s input dt :
  speed_step s (accelerate (levelUp (activatePhase random input (updateAbilities dt (decayShake s))))).
Proof.
  eapply speed_step_trans; [| apply accelerate_speed_step].
  eapply speed_step_trans; [| apply levelUp_speed_step].
  eapply speed_step_trans; [| apply core_speed_step, activatePhase_core].
  eapply speed_step_trans; [| apply core_speed_step, updateAbilities_core].
  apply core_speed_step, decayShake_core.
Qed.

Lemma upToJump_z s input dt :
  speed_ok s -> pos_z (player (upToJump s input dt)) <= pos_z (player s) + speed_cap s.
Proof.
  intro Hok. unfold upToJump. rewrite lateral_player_eq, lateral_player_z, moveForward_player.
  unfold pos_z at 1. cbn [PlayerState.position PlayerState.set_position Point3D.z Point3D.set_z].
  rewrite jsnum_eq.
  destruct (upToSpeed_step s input dt) as [Hd Hs]. destruct (Hs Hok) as [_ Hok'].
  unfold speed_ok, speed_cap in *. rewrite Hd in Hok'.
  rewrite accelerate_player, levelUp_player, activatePhase_player.
  assert (Hz : Point3D.z (PlayerState.position (player (updateAbilities dt (decayShake s)))) =
               pos_z (player s)).
  { rewrite updateAbilities_player_eq, decayShake_player. apply updateAbilities_player_z. }
  destruct_ifs; cbn [PlayerState.position PlayerState.set_phaseCooldown
    PlayerState.set_phaseTimeRemaining PlayerState.set_phaseActive]; rewrite Hz; lra.
Qed.

Lemma update_z s input dt :
  gameWon s = false ->
  pos_z (player (update random sin s input dt)) = pos_z (player (upToJump s input dt)).
Proof.
  intro Hw. rewrite update_player by exact Hw.
  rewrite gravity_player_z. apply jump_select_z.
Qed.

(** Far from the first obstacle (slice 11), an [update] hits nothing, so
    it cannot win the game. *)
Lemma gameWon_set_entities es s : gameWon (set_entities es s) = gameWon s.
Proof. reflexivity. Qed.

Lemma pos_z_unfold p : Point3D.z (PlayerState.position p) = pos_z p.
Proof. reflexivity. Qed.

Lemma update_nohit s input dt :
  gameWon s = false -> Forall entity_far (entities s) -> speed_ok s ->
  pos_z (player s) + speed_cap s < 10.2 ->
  gameWon (update random sin s input dt) = false.
Proof.
  intros Hw Hf Hok Hz. unfold update. rewrite Hw.
  destruct (updateParticles_core (checkCollisions random (beforeCollisions random sin s input dt)))
    as (_ & _ & _ & _ & _ & -> & _).
  rewrite checkCollisions_nohit.
  - rewrite gameWon_set_entities.
    destruct (beforeCollisions_outcome random sin s input dt) as (_ & _ & -> & _). exact Hw.
  - apply beforeCollisions_far, Hf.
  - rewrite beforeCollisions_player. apply gravity_player_y.
  - rewrite pos_z_unfold, beforeCollisions_player, gravity_player_z, jump_select_z.
    pose proof (upToJump_z s input dt Hok). lra.
Qed.

Lemma reachable_difficulty d s : reachable random sin d s -> difficulty s = d.
Proof.
  induction 1.
  - unfold reset. cbv zeta.
    rewrite (generateSlices_keeps random sin difficulty) by apply generateSlice_difficulty.
    reflexivity.
  - rewrite (proj1 (update_speed_step random sin s input deltaTime)). assumption.
Qed.
End Vertical.

(** The vertical state as a player, and one [update] on it. *)
Definition vert_player (v : Q * Q * bool * Z) : PlayerState.t :=
  let '(y, vy, j, c) := v in
  PlayerState.mk (Point3D.mk 0 y 0) (Point3D.mk 0 vy 0) j 0 c false 0 0.

Definition vstep (pressed : bool) (v : Q * Q * bool * Z) : Q * Q * bool * Z :=
  vert (gravity_player (jump_select pressed (vert_player v))).

Lemma vert_vert_player p : vert (vert_player (vert p)) = vert p.
Proof. reflexivity. Qed.

Lemma update_vstep random sin s input dt :
  gameWon s = false ->
  vert (player (update random sin s input dt)) =
  vstep (Input.jump input && negb (lastJumpInput s)) (vert (player s)).
Proof.
  intro Hw. rewrite update_vert by exact Hw. unfold vstep.
  apply vert_gravity, vert_select. symmetry. apply vert_vert_player.
Qed.

Lemma vert_isJumping p : PlayerState.isJumping p = snd (fst (vert p)).
Proof. reflexivity. Qed.
Lemma vert_jumpCount p : PlayerState.jumpCount p = snd (vert p).
Proof. reflexivity. Qed.
Lemma vert_vy p : Point3D.y (PlayerState.velocity p) = snd (fst (fst (vert p))).
Proof. reflexivity. Qed.

(** One of the first frames after [reset(MEDIUM)]: nothing is in reach,
    so the game goes on, and the player advances by at most one unit. *)
Lemma early_step random sin s input dt z :
  reachable random sin MEDIUM s -> gameWon s = false ->
  pos_z (player s) <= z -> z + 1 < 10.2 ->
  gameWon (update random sin s input dt) = false /\
  pos_z (player (update random sin s input dt)) <= z + 1.
Proof.
  intros Hr Hw Hz Hz'.
  pose proof (reachable_speed_ok random sin MEDIUM s Hr) as Hok.
  assert (Hcap : speed_cap s == 1).
  { unfold speed_cap. rewrite (reachable_difficulty random sin MEDIUM s Hr). reflexivity. }
  split.
  - apply update_nohit; [exact Hw | apply (reachable_far random sin MEDIUM s Hr) | exact Hok |].
    rewrite Hcap. lra.
  - rewrite update_z by exact Hw.
    pose proof (upToJump_z random s input dt Hok) as H. rewrite Hcap in H. lra.
Qed.

Lemma reset_gameWon random sin d s0 : gameWon (reset random sin d s0) = false.
Proof.
  unfold reset. cbv zeta.
  rewrite (generateSlices_keeps random sin gameWon) by apply generateSlice_gameWon.
  reflexivity.
Qed.

Lemma reset_lastJumpInput random sin d s0 : lastJumpInput (reset random sin d s0) = false.
Proof.
  unfold reset. cbv zeta.
  rewrite (generateSlices_keeps random sin lastJumpInput) by apply generateSlice_lastJumpInput.
  reflexivity.
Qed.

(** Evaluate the closed right-hand side of an equation. *)
Ltac compute_rhs H :=
  match type of H with
  | _ = ?rhs => let v := eval vm_compute in rhs in
                replace rhs with v in H by (vm_compute; reflexivity)
  end.

(** ** Leveling *)

(** Level, target, gold and score, as a tuple. *)
Definition level_view (s : GameEngine) : Z * Z * Z * Z :=
  (level s, levelTarget s, goldCollectedInLevel s, score s).

Lemma lv_level s : level s = fst (fst (fst (level_view s))).
Proof. reflexivity. Qed.
Lemma lv_target s : levelTarget s = snd (fst (fst (level_view s))).
Proof. reflexivity. Qed.
Lemma lv_gold s : goldCollectedInLevel s = snd (fst (level_view s)).
Proof. reflexivity. Qed.
Lemma lv_score s : score s = snd (level_view s).
Proof. reflexivity. Qed.

Lemma core_level_view s s' : keeps_core s s' -> level_view s' = level_view s.
Proof.
  unfold keeps_core, level_view. intros (_ & -> & _ & -> & -> & _ & _ & ->). reflexivity.
Qed.

Lemma accelerate_level_view s : level_view (accelerate s) = level_view s.
Proof. unfold level_view, accelerate. cbv zeta. destruct_ifs; reflexivity. Qed.

Lemma levelUp_fire s :
  (levelTarget s <= goldCollectedInLevel s)%Z ->
  level_view (levelUp s) =
  ((level s + 1)%Z, (levelTarget s + LEVEL_TARGET_INCREMENT)%Z, 0%Z, score s).
Proof.
  intro H. unfold levelUp, level_view. cbv zeta.
  apply Z.leb_le in H. rewrite H. destruct_ifs; reflexivity.
Qed.

(** Gold and score move together in the collision step. *)
Definition gold_score (s s' : GameEngine) : Prop :=
  level s' = level s /\ levelTarget s' = levelTarget s /\
  (score s' - score s = 10 * (goldCollectedInLevel s' - goldCollectedInLevel s))%Z.

Lemma handleCollision_gold_score random s e :
  gold_score s (snd (handleCollision random s e)).
Proof.
  unfold handleCollision, gold_score. cbv zeta. proj_simpl.
  destruct_ifs; gen_spawn; frame_finish.
Qed.

Lemma checkCollisions_gold_score random s : gold_score s (checkCollisions random s).
Proof.
  unfold checkCollisions.
  assert (H : gold_score s (snd (collisionLoop random (PlayerState.position (player s)) (entities s) s))).
  { apply collisionLoop_rel.
    - intro. unfold gold_score. repeat split; lia.
    - unfold gold_score. intros a b c (? & ? & ?) (? & ? & ?). repeat split; lia.
    - apply handleCollision_gold_score. }
  destruct (collisionLoop random _ (entities s) s) as [es s']. exact H.
Qed.

Lemma beforeCollisions_level_view random sin s input dt :
  level_view (beforeCollisions random sin s input dt) =
  level_view (levelUp (activatePhase random input (updateAbilities dt (decayShake s)))).
Proof.
  unfold beforeCollisions.
  rewrite (core_level_view _ _ (cleanup_core _)), (core_level_view _ _ (worldGen_core _ _ _)),
    (core_level_view _ _ (jumpAndGravity_core _ _ _)), (core_level_view _ _ (lateral_core _ _)),
    (core_level_view _ _ (moveForward_core _)), accelerate_level_view.
  reflexivity.
Qed.

(** * The claims *)

(** C10: after [reset] and after every [update], an active phase has time
    left: [phaseActive = true] implies [phaseTimeRemaining > 0]. *)
Theorem phase_active_has_time :
  forall random sin d s, reachable random sin d s ->
  PlayerState.phaseActive (player s) = true ->
  0 < PlayerState.phaseTimeRemaining (player s).
Proof.
  intros random sin d s Hr Ha. apply (reachable_phase random sin d s Hr). exact Ha.
Qed.

Lemma phase_active_has_time_witness :
  let s := update zero_random zero_sin (new_GameEngine zero_random zero_sin) phase_input 16 in
  reachable zero_random zero_sin MEDIUM s /\
  PlayerState.phaseActive (player s) = true /\
  0 < PlayerState.phaseTimeRemaining (player s).
Proof.
  cbv zeta.
  assert (Hr : reachable zero_random zero_sin MEDIUM
                 (update zero_random zero_sin (new_GameEngine zero_random zero_sin) phase_input 16))
    by (apply reachable_update; apply reachable_reset).
  assert (Ha : PlayerState.phaseActive (player (update zero_random zero_sin
                 (new_GameEngine zero_random zero_sin) phase_input 16)) = true)
    by (vm_compute; reflexivity).
  split; [exact Hr | split; [exact Ha |]].
  exact (phase_active_has_time zero_random zero_sin MEDIUM _ Hr Ha).
Defined.

(** C3: while the phase ability has time left when the collisions of an
    [update] are checked, a collision with any non-GOLD entity changes
    nothing: [handleCollision] hands back the entity and the state
    untouched (the player is the same throughout the collision loop).
    Hence such an [update] leaves [lives] unchanged. *)
Theorem phase_ignores_hazards :
  forall random sin d s input deltaTime,
  reachable random sin d s ->
  0 < PlayerState.phaseTimeRemaining (player (beforeCollisions random sin s input deltaTime)) ->
  (forall t e, player t = player (beforeCollisions random sin s input deltaTime) ->
     Entity.type e <> GOLD -> handleCollision random t e = (e, t)) /\
  lives (update random sin s input deltaTime) = lives s.
Proof.
  intros random sin d s input dt Hr Hpos.
  pose proof (beforeCollisions_phase random sin s input dt (reachable_phase random sin d s Hr)) as Hiff.
  assert (Ha : PlayerState.phaseActive (player (beforeCollisions random sin s input dt)) = true)
    by (apply Hiff; exact Hpos).
  split.
  - intros t e Ht Hne. unfold handleCollision.
    destruct (BlockType_beq (Entity.type e) GOLD) eqn:Eg.
    + apply internal_BlockType_dec_bl in Eg. contradiction.
    + rewrite Ht, Ha. reflexivity.
  - unfold update. destruct (gameWon s); [reflexivity|].
    destruct (updateParticles_core (checkCollisions random (beforeCollisions random sin s input dt)))
      as (_ & _ & _ & _ & _ & _ & -> & _).
    destruct (checkCollisions_phased random (beforeCollisions random sin s input dt)) as [_ ->];
      [|exact Ha].
    apply (beforeCollisions_outcome random sin s input dt).
Qed.

Lemma phase_ignores_hazards_witness :
  let s := new_GameEngine zero_random zero_sin in
  reachable zero_random zero_sin MEDIUM s /\
  0 < PlayerState.phaseTimeRemaining
        (player (beforeCollisions zero_random zero_sin s phase_input 16)) /\
  lives (update zero_random zero_sin s phase_input 16) = lives s.
Proof.
  cbv zeta.
  assert (Hr : reachable zero_random zero_sin MEDIUM (new_GameEngine zero_random zero_sin))
    by apply reachable_reset.
  assert (Hp : 0 < PlayerState.phaseTimeRemaining
        (player (beforeCollisions zero_random zero_sin (new_GameEngine zero_random zero_sin)
                   phase_input 16))) by (vm_compute; reflexivity).
  split; [exact Hr | split; [exact Hp |]].
  exact (proj2 (phase_ignores_hazards zero_random zero_sin MEDIUM _ phase_input 16 Hr Hp)).
Defined.

(** C9: along any run from [reset], the reported speed never decreases:
    one [update] of a reachable state does not lower [speed]. *)
Theorem speed_monotone :
  forall random sin d s input deltaTime, reachable random sin d s ->
  speed s <= speed (update random sin s input deltaTime).
Proof.
  intros random sin d s input dt Hr. unfold speed.
  apply (proj2 (update_speed_step random sin s input dt) (reachable_speed_ok random sin d s Hr)).
Qed.

Lemma speed_monotone_witness :
  let s := new_GameEngine zero_random zero_sin in
  reachable zero_random zero_sin MEDIUM s /\
  speed s <= speed (update zero_random zero_sin s phase_input 16).
Proof.
  cbv zeta.
  assert (Hr : reachable zero_random zero_sin MEDIUM (new_GameEngine zero_random zero_sin))
    by apply reachable_reset.
  split; [exact Hr|]. exact (speed_monotone zero_random zero_sin MEDIUM _ phase_input 16 Hr).
Defined.

(** ** Lives *)

Lemma run_reachable random sin d n s :
  reachable random sin d s -> reachable random sin d (run random sin n s).
Proof.
  revert s. induction n as [|n IH]; intros s Hr; [exact Hr|].
  cbn [run]. apply IH. apply reachable_update. exact Hr.
Qed.

Lemma reset_lives random sin d s0 : lives (reset random sin d s0) = 3%Z.
Proof.
  unfold reset. cbv zeta.
  rewrite (generateSlices_keeps random sin lives) by apply generateSlice_lives.
  reflexivity.
Qed.

Lemma update_lives_le random sin s input dt :
  (lives (update random sin s input dt) <= lives s)%Z.
Proof.
  unfold update. destruct (gameWon s); [lia|].
  destruct (updateParticles_core (checkCollisions random (beforeCollisions random sin s input dt)))
    as (_ & _ & _ & _ & _ & _ & -> & _).
  destruct (checkCollisions_frame random (beforeCollisions random sin s input dt))
    as (_ & _ & _ & _ & _ & _ & _ & _ & Hl).
  destruct (beforeCollisions_outcome random sin s input dt) as (Hb & _).
  lia.
Qed.

(** C2, as the code has it: lives start at 3 and no [update] raises them.
    [update] itself has no floor at 0 (the game loop stops calling it once
    [lives <= 0]), see [lives_can_go_negative]. *)
Theorem lives_bounded :
  forall random sin d s, reachable random sin d s ->
  (lives s <= 3)%Z /\
  forall input deltaTime, (lives (update random sin s input deltaTime) <= lives s)%Z.
Proof.
  intros random sin d s Hr. split.
  - induction Hr.
    + rewrite reset_lives. lia.
    + pose proof (update_lives_le random sin s input deltaTime). lia.
  - intros input dt. apply update_lives_le.
Qed.

Lemma lives_bounded_witness :
  let s := new_GameEngine zero_random zero_sin in
  reachable zero_random zero_sin MEDIUM s /\
  (lives s <= 3)%Z /\ (lives (update zero_random zero_sin s noinput 16) <= lives s)%Z.
Proof.
  cbv zeta.
  assert (Hr : reachable zero_random zero_sin MEDIUM (new_GameEngine zero_random zero_sin))
    by apply reachable_reset.
  split; [exact Hr|].
  destruct (lives_bounded zero_random zero_sin MEDIUM _ Hr) as [H1 H2].
  split; [exact H1 | apply H2].
Defined.

(** C2 counterexample: with a valid [Math.random] stream, 74 frames after
    [reset(MEDIUM)] the player has run through enough stones for [lives] to
    be negative. *)
Lemma lives_can_go_negative :
  (forall n, 0 <= rnd_c2 n < 1) /\
  forall sin, exists s, reachable rnd_c2 sin MEDIUM s /\ lives s = (-1)%Z.
Proof.
  split.
  - intro n. unfold rnd_c2, rnd_c1.
    destruct (n <? 56)%nat; [destruct (Nat.eqb (n mod 4) 0)|];
      split; unfold Qle, Qlt; cbn; lia.
  - intro sin. exists (run rnd_c2 sin 74 (new_GameEngine rnd_c2 sin)). split.
    + apply run_reachable, reachable_reset.
    + vm_compute. reflexivity.
Qed.

(** C1: two hazards hit in one frame cost two lives.  After [reset(MEDIUM)]
    the stone of slice 11 is generated twice (once by [reset], once more by
    the world generation, which resumes at [lastGenZ = 5]); both copies sit
    at the same place and are not collected, and the frame that reaches
    them takes [lives] from 3 to 1. *)
Theorem double_hit_in_one_update :
  (forall n, 0 <= rnd_c1 n < 1) /\
  forall sin, exists s, reachable rnd_c1 sin MEDIUM s /\ lives s = 3%Z /\
    lives (update rnd_c1 sin s noinput 16) = 1%Z.
Proof.
  split.
  - intro n. unfold rnd_c1.
    destruct (Nat.eqb (n mod 4) 0); split; unfold Qle, Qlt; cbn; lia.
  - intro sin. exists (run rnd_c1 sin 56 (new_GameEngine rnd_c1 sin)). split; [|split].
    + apply run_reachable, reachable_reset.
    + vm_compute. reflexivity.
    + vm_compute. reflexivity.
Qed.

(** ** Jumping *)

(** C4: after [reset(MEDIUM)], with any random stream and any time steps:
    a first update with the jump key down starts a jump ([isJumping],
    [jumpCount = 1], vertical velocity [JUMP_FORCE - GRAVITY]); a second
    one with the key still down adds no impulse (only gravity acts); after
    a release frame the player is still airborne, and pressing again makes
    the double jump ([jumpCount = 2], velocity [JUMP_FORCE * 0.9 - GRAVITY]). *)
Theorem jump_scenario :
  forall random sin s0 (i1 i2 i3 i4 : Input.t) (dt1 dt2 dt3 dt4 : Q),
  Input.jump i1 = true -> Input.jump i2 = true ->
  Input.jump i3 = false -> Input.jump i4 = true ->
  let s1 := update random sin (reset random sin MEDIUM s0) i1 dt1 in
  let s2 := update random sin s1 i2 dt2 in
  let s3 := update random sin s2 i3 dt3 in
  let s4 := update random sin s3 i4 dt4 in
  (PlayerState.isJumping (player s1) = true /\ PlayerState.jumpCount (player s1) = 1%Z /\
   Point3D.y (PlayerState.velocity (player s1)) == JUMP_FORCE - GRAVITY) /\
  (PlayerState.jumpCount (player s2) = 1%Z /\
   Point3D.y (PlayerState.velocity (player s2)) == JUMP_FORCE - GRAVITY - GRAVITY) /\
  (PlayerState.isJumping (player s3) = true /\ PlayerState.jumpCount (player s3) = 1%Z) /\
  (PlayerState.jumpCount (player s4) = 2%Z /\
   Point3D.y (PlayerState.velocity (player s4)) == JUMP_FORCE * 0.9 - GRAVITY).
Proof.
  intros random sin s0 i1 i2 i3 i4 dt1 dt2 dt3 dt4 J1 J2 J3 J4. cbv zeta.
  pose proof (reachable_reset random sin MEDIUM s0) as R0.
  pose proof (reset_gameWon random sin MEDIUM s0) as W0.
  pose proof (reset_lastJumpInput random sin MEDIUM s0) as L0.
  pose proof (reset_player random sin MEDIUM s0) as P0.
  revert R0 W0 L0 P0. generalize (reset random sin MEDIUM s0) as r0. intros r0 R0 W0 L0 P0.
  assert (Z0 : pos_z (player r0) <= 0) by (rewrite P0; apply Qle_refl).
  pose proof (reachable_update random sin MEDIUM r0 i1 dt1 R0) as R1.
  pose proof (reachable_update random sin MEDIUM _ i2 dt2 R1) as R2.
  destruct (early_step random sin r0 i1 dt1 0 R0 W0 Z0 ltac:(lra)) as [W1 Z1].
  destruct (early_step random sin _ i2 dt2 (0 + 1) R1 W1 Z1 ltac:(lra)) as [W2 Z2].
  destruct (early_step random sin _ i3 dt3 (0 + 1 + 1) R2 W2 Z2 ltac:(lra)) as [W3 _].
  pose proof (update_vstep random sin r0 i1 dt1 W0) as V1.
  pose proof (update_vstep random sin _ i2 dt2 W1) as V2.
  pose proof (update_vstep random sin _ i3 dt3 W2) as V3.
  pose proof (update_vstep random sin _ i4 dt4 W3) as V4.
  pose proof (update_lastJumpInput random sin r0 i1 dt1 W0) as L1.
  pose proof (update_lastJumpInput random sin _ i2 dt2 W1) as L2.
  pose proof (update_lastJumpInput random sin _ i3 dt3 W2) as L3.
  rewrite J1, L0, P0 in V1. rewrite J2, L1, J1 in V2. rewrite J3 in V3.
  rewrite J4, L3, J3 in V4.
  compute_rhs V1. rewrite V1 in V2. compute_rhs V2. rewrite V2 in V3. compute_rhs V3.
  rewrite V3 in V4. compute_rhs V4.
  rewrite !vert_isJumping, !vert_jumpCount, !vert_vy, V1, V2, V3, V4.
  repeat split; unfold Qeq; vm_compute; reflexivity.
Qed.

Lemma jump_scenario_witness :
  let s0 := new_GameEngine zero_random zero_sin in
  let s4 := update zero_random zero_sin (update zero_random zero_sin
              (update zero_random zero_sin (update zero_random zero_sin
                 (reset zero_random zero_sin MEDIUM s0) jump_input 16) jump_input 16)
              noinput 16) jump_input 16 in
  Input.jump jump_input = true /\ Input.jump noinput = false /\
  PlayerState.jumpCount (player s4) = 2%Z.
Proof.
  cbv zeta. split; [reflexivity|]. split; [reflexivity|].
  pose proof (jump_scenario zero_random zero_sin (new_GameEngine zero_random zero_sin)
                jump_input jump_input noinput jump_input 16 16 16 16
                eq_refl eq_refl eq_refl eq_refl) as H.
  cbv zeta in H. destruct H as (_ & _ & _ & H & _). exact H.
Defined.

(** ** Leveling up *)

(** C7, as the code has it: when an [update] starts on a game that is not
    won with [goldCollectedInLevel >= levelTarget], it raises [level] by
    exactly 1 and [levelTarget] by exactly [LEVEL_TARGET_INCREMENT], and sets
    [goldCollectedInLevel] to 0 before the collision step; the gold counter
    at the end of the update is the gold collected in that same step (ten
    points of score each). *)
Theorem level_up_step :
  forall random sin s input deltaTime,
  gameWon s = false ->
  (levelTarget s <= goldCollectedInLevel s)%Z ->
  level (update random sin s input deltaTime) = (level s + 1)%Z /\
  levelTarget (update random sin s input deltaTime) =
    (levelTarget s + LEVEL_TARGET_INCREMENT)%Z /\
  goldCollectedInLevel (beforeCollisions random sin s input deltaTime) = 0%Z /\
  (10 * goldCollectedInLevel (update random sin s input deltaTime) =
     score (update random sin s input deltaTime) - score s)%Z.
Proof.
  intros random sin s input dt Hw Ht.
  pose proof (beforeCollisions_level_view random sin s input dt) as Hb.
  assert (HA : level_view (activatePhase random input (updateAbilities dt (decayShake s))) =
               level_view s).
  { rewrite (core_level_view _ _ (activatePhase_core _ _ _)),
      (core_level_view _ _ (updateAbilities_core _ _)), (core_level_view _ _ (decayShake_core _)).
    reflexivity. }
  rewrite levelUp_fire in Hb.
  2:{ rewrite lv_target, lv_gold, HA, <- lv_target, <- lv_gold. exact Ht. }
  rewrite lv_level, lv_target, lv_score, HA, <- lv_level, <- lv_target, <- lv_score in Hb.
  assert (Hbl : level (beforeCollisions random sin s input dt) = (level s + 1)%Z)
    by (rewrite lv_level, Hb; reflexivity).
  assert (Hbt : levelTarget (beforeCollisions random sin s input dt) =
                (levelTarget s + LEVEL_TARGET_INCREMENT)%Z)
    by (rewrite lv_target, Hb; reflexivity).
  assert (Hbg : goldCollectedInLevel (beforeCollisions random sin s input dt) = 0%Z)
    by (rewrite lv_gold, Hb; reflexivity).
  assert (Hbs : score (beforeCollisions random sin s input dt) = score s)
    by (rewrite lv_score, Hb; reflexivity).
  clear Hb HA.
  unfold update. rewrite Hw.
  destruct (updateParticles_core (checkCollisions random (beforeCollisions random sin s input dt)))
    as (_ & -> & _ & -> & -> & _ & _ & ->).
  destruct (checkCollisions_gold_score random (beforeCollisions random sin s input dt))
    as (-> & -> & Hg).
  split; [exact Hbl|]. split; [exact Hbt|]. split; [exact Hbg|].
  rewrite Hbg, Hbs in Hg. lia.
Qed.

Lemma level_up_step_witness :
  let s := set_goldCollectedInLevel 5 (new_GameEngine zero_random zero_sin) in
  gameWon s = false /\ (levelTarget s <= goldCollectedInLevel s)%Z /\
  level (update zero_random zero_sin s noinput 16) = 2%Z.
Proof.
  cbv zeta. split; [reflexivity|]. split; [apply Z.leb_le; vm_compute; reflexivity|].
  destruct (level_up_step zero_random zero_sin
              (set_goldCollectedInLevel 5 (new_GameEngine zero_random zero_sin)) noinput 16
              eq_refl ltac:(apply Z.leb_le; vm_compute; reflexivity)) as [H _].
  rewrite H. vm_compute. reflexivity.
Defined.

(** C7 counterexample: with a valid [Math.random] stream, 109 frames after
    [reset(MEDIUM)] the gold of the level (12) has reached its target (11),
    but the gold that got there also brought the score to 250 and won the
    game, so the next [update] changes nothing: the level and the target
    stay as they are. *)
Lemma level_up_blocked_by_win :
  (forall n, 0 <= rnd_c7 n < 1) /\
  exists s, reachable rnd_c7 zero_sin MEDIUM s /\
    (levelTarget s <= goldCollectedInLevel s)%Z /\
    level (update rnd_c7 zero_sin s noinput 16) = level s /\
    levelTarget (update rnd_c7 zero_sin s noinput 16) = levelTarget s.
Proof.
  split.
  - intro n. unfold rnd_c7.
    destruct (Nat.even n); split; unfold Qle, Qlt; cbn; lia.
  - pose proof (run_reachable rnd_c7 zero_sin MEDIUM 109 (new_GameEngine rnd_c7 zero_sin)
                  (reachable_reset _ _ _ _)) as R.
    assert (B : let s := run rnd_c7 zero_sin 109 (new_GameEngine rnd_c7 zero_sin) in
                let s' := update rnd_c7 zero_sin s noinput 16 in
                (levelTarget s <=? goldCollectedInLevel s)%Z && (level s' =? level s)%Z &&
                (levelTarget s' =? levelTarget s)%Z = true)
      by (vm_compute; reflexivity).
    cbv zeta in B. revert R B.
    generalize (run rnd_c7 zero_sin 109 (new_GameEngine rnd_c7 zero_sin)) as s. intros s R B.
    apply andb_prop in B as [B B3]. apply andb_prop in B as [B1 B2].
    exists s. split; [exact R|]. split; [apply Z.leb_le, B1|].
    split; apply Z.eqb_eq; assumption.
Qed.

(** ** A won game is frozen *)

(** C8: once [gameWon] is set, [update] returns the engine unchanged, for
    every input and every time step: player, entities, particles, score,
    lives, level, gold, level target, speed, shake and the input latches
    all stay as they were. *)
Theorem update_frozen_when_won :
  forall (random : nat -> Q) (sin : Q -> Q) (s : GameEngine) (input : Input.t) (deltaTime : Q),
    gameWon s = true -> update random sin s input deltaTime = s.
Proof.
  intros random sin s input deltaTime Hwon. unfold update. rewrite Hwon. reflexivity.
Qed.

Lemma update_frozen_when_won_witness :
  let s := set_gameWon true (new_GameEngine zero_random zero_sin) in
  gameWon s = true /\
  update zero_random zero_sin s (Input.mk true false true true) 16 = s.
Proof.
  cbv zeta. split.
  - reflexivity.
  - apply update_frozen_when_won. reflexivity.
Defined.

(** ** The fog factor *)

Lemma fog_clamp_eq (distance : Q) :
  (distance - 5) / (FOG_DISTANCE - 10) == (distance - 5) * (1 # 15).
Proof. reflexivity. Qed.

Lemma fog_clamp_bounds (v : Q) : 0 <= Qmax 0 (Qmin 1 v) <= 1.
Proof.
  split.
  - apply Q.le_max_l.
  - apply Q.max_lub; [lra | apply Q.le_min_l].
Qed.

Lemma fog_clamp_mono (v w : Q) : v <= w -> Qmax 0 (Qmin 1 v) <= Qmax 0 (Qmin 1 w).
Proof.
  intros Hvw. apply Q.max_le_compat_l, Q.min_le_compat_l, Hvw.
Qed.

(** C5: the fog factor lies in [0,1], is 0 up to depth 5, is 1 from
    FOG_DISTANCE on, and never decreases with the depth. *)
Theorem fogFactor_spec :
  forall d d1 d2 : Q,
    (0 <= fogFactor d <= 1) /\
    (d <= 5 -> fogFactor d == 0) /\
    (FOG_DISTANCE <= d -> fogFactor d == 1) /\
    (d1 <= d2 -> fogFactor d1 <= fogFactor d2).
Proof.
  intros d d1 d2. unfold fogFactor.
  split; [| split; [| split]].
  - destruct (fog_clamp_bounds ((d - 5) / (FOG_DISTANCE - 10))) as [H0 H1].
    split; nra.
  - intros Hd.
    assert (Hv : (d - 5) / (FOG_DISTANCE - 10) <= 0)
      by (rewrite fog_clamp_eq; lra).
    assert (Hm : Qmin 1 ((d - 5) / (FOG_DISTANCE - 10)) <= 0)
      by (apply Q.min_le_iff; right; exact Hv).
    rewrite (Q.max_l 0 _ Hm). reflexivity.
  - unfold FOG_DISTANCE in *. intros Hd.
    assert (Hv : 1 <= (d - 5) / (25 - 10)) by (rewrite fog_clamp_eq; lra).
    rewrite (Q.min_l 1 _ Hv).
    rewrite (Q.max_r 0 1); [reflexivity | lra].
  - intros H12.
    assert (Hv : (d1 - 5) / (FOG_DISTANCE - 10) <= (d2 - 5) / (FOG_DISTANCE - 10))
      by (rewrite !fog_clamp_eq; lra).
    pose proof (fog_clamp_mono _ _ Hv) as Hm.
    destruct (fog_clamp_bounds ((d1 - 5) / (FOG_DISTANCE - 10))).
    nra.
Qed.

Lemma fogFactor_spec_witness :
  fogFactor 3 == 0 /\ fogFactor 30 == 1 /\ fogFactor 10 <= fogFactor 12.
Proof.
  destruct (fogFactor_spec 3 10 12) as [_ [H3 [_ H12]]].
  destruct (fogFactor_spec 30 10 12) as [_ [_ [H30 _]]].
  split; [apply H3; vm_compute; discriminate |].
  split; [apply H30; vm_compute; discriminate |].
  apply H12; vm_compute; discriminate.
Defined.
(** ** The projection *)

Module CanvasFacts.
Import Reals Canvas.
Local Open Scope R_scope.

(** C6: [project] returns [null] exactly when the camera-relative depth
    after the roll and pitch rotations is at most 0.1; otherwise it
    returns [scale = FOV / depth], [x = lateral * scale + width / 2] and
    [y = height / 2 - vertical * scale] (and [dist = depth]). *)
Theorem project_spec :
  forall (p : Point3DR.t) (camX camY camZ width height tilt pitch : R),
    let '(lateral, vertical, depth) := camera_coords p camX camY camZ tilt pitch in
    match project p camX camY camZ width height tilt pitch with
    | None => depth <= 1 / 10
    | Some r =>
        1 / 10 < depth /\ scale r = FOV / depth /\
        px r = lateral * scale r + width / 2 /\
        py r = height / 2 - vertical * scale r /\ dist r = depth
    end.
Proof.
  intros p camX camY camZ width height tilt pitch.
  unfold camera_coords, project.
  destruct (Req_EM_T tilt 0) as [Ht | Ht]; [subst tilt; rewrite cos_0, sin_0 |];
  destruct (Req_EM_T pitch 0) as [Hp | Hp]; [subst pitch; rewrite cos_0, sin_0 | | subst pitch; rewrite cos_0, sin_0 |];
  cbv beta iota zeta;
  repeat match goal with
    | |- context [?a * 1] => rewrite (Rmult_1_r a)
    | |- context [?a * 0] => rewrite (Rmult_0_r a)
    | |- context [?a + 0] => rewrite (Rplus_0_r a)
    | |- context [0 + ?a] => rewrite (Rplus_0_l a)
    | |- context [?a - 0] => rewrite (Rminus_0_r a)
    | |- context [- 0] => rewrite Ropp_0
    end;
  destruct (Rle_dec _ _) as [Hle | Hgt]; cbn [scale px py dist];
    first [ assumption | repeat split; [apply Rnot_le_lt; exact Hgt | ..]; reflexivity ].
Qed.
End CanvasFacts.

(** * Further properties of the code *)

Ltac destruct_ifs_eqn :=
  repeat match goal with
         | |- context [if ?b then _ else _] =>
             let E := fresh "E" in destruct b eqn:E
         end.

Ltac bool_facts :=
  repeat match goal with
  | H : Qltb _ _ = true |- _ => apply Qltb_true in H
  | H : Qltb _ _ = false |- _ => apply Qltb_false in H
  | H : Qle_bool _ _ = true |- _ => apply Qle_bool_iff in H
  | H : Qle_bool _ _ = false |- _ => apply Qle_bool_false in H
  end.

Definition lateral_ok (p : PlayerState.t) : Prop :=
  - (LANE_WIDTH * 1.8) <= Point3D.x (PlayerState.position p) <= LANE_WIDTH * 1.8 /\
  - MAX_SPEED_X <= Point3D.x (PlayerState.velocity p) <= MAX_SPEED_X /\
  - (MAX_SPEED_X * CAMERA_TILT_FACTOR) <= PlayerState.tilt p <= MAX_SPEED_X * CAMERA_TILT_FACTOR.

Lemma lateral_player_ok input p : lateral_ok (lateral_player input p).
Proof.
  unfold lateral_ok, lateral_player. cbv zeta.
  match goal with |- context [Qltb MAX_SPEED_X ?v] => generalize v; intro v0 end.
  generalize (Point3D.x (PlayerState.position p)) as x0. intro x0.
  repeat match goal with
  | |- context [if Qltb ?a ?b then _ else _] =>
      let E := fresh "E" in destruct (Qltb a b) eqn:E
  end;
  player_simpl; bool_facts;
  rewrite ?jsnum_eq in *; unfold MAX_SPEED_X, LANE_WIDTH, CAMERA_TILT_FACTOR in *;
  repeat split; lra.
Qed.

Definition x_view (p : PlayerState.t) : Q * Q * Q :=
  (Point3D.x (PlayerState.position p), Point3D.x (PlayerState.velocity p), PlayerState.tilt p).

Lemma gravity_player_x_view p : x_view (gravity_player p) = x_view p.
Proof. unfold gravity_player. cbv zeta. destruct_ifs; reflexivity. Qed.

Lemma jump_select_x_view b p : x_view (jump_select b p) = x_view p.
Proof. unfold jump_select. destruct_ifs; reflexivity. Qed.

Lemma lateral_ok_x_view p q : x_view p = x_view q -> lateral_ok q -> lateral_ok p.
Proof.
  unfold x_view, lateral_ok. intro H. injection H as H1 H2 H3. rewrite H1, H2, H3. tauto.
Qed.

Lemma update_frozen_eq random sin s input dt :
  gameWon s = true -> update random sin s input dt = s.
Proof. intro H. unfold update. rewrite H. reflexivity. Qed.

Lemma update_lateral_ok random sin s input dt :
  gameWon s = false -> lateral_ok (player (update random sin s input dt)).
Proof.
  intro Hw. rewrite update_player by exact Hw.
  eapply lateral_ok_x_view; [rewrite gravity_player_x_view; apply jump_select_x_view |].
  unfold upToJump. rewrite lateral_player_eq. apply lateral_player_ok.
Qed.

(** X1: in every state reachable from [reset(difficulty)] by [update]
    calls, the player's lateral position stays within the walls
    [+/-LANE_WIDTH * 1.8], the lateral velocity within [+/-MAX_SPEED_X], and the
    tilt within [+/-MAX_SPEED_X * CAMERA_TILT_FACTOR]. *)
Theorem reachable_lateral_bounds random sin d s :
  reachable random sin d s -> lateral_ok (player s).
Proof.
  induction 1 as [s0 | s input dt Hr IH].
  - rewrite reset_player. unfold lateral_ok. cbn. repeat split; unfold Qle; cbn; lia.
  - destruct (gameWon s) eqn:Hw.
    + rewrite update_frozen_eq by exact Hw. exact IH.
    + apply update_lateral_ok, Hw.
Qed.

(** The vertical invariant, on [vert]. *)
Definition vert_ok (v : Q * Q * bool * Z) : Prop :=
  let '(y, vy, j, c) := v in
  0 <= y /\
  (j = false -> c = 0%Z /\ y == 0 /\ vy == 0) /\
  (j = true -> 0 < y /\ (c = 1%Z \/ c = 2%Z)).

Lemma vstep_ok b v : vert_ok v -> vert_ok (vstep b v).
Proof.
  destruct v as [[[y vy] j] c]. unfold vstep, vert_ok, vert_player, jump_select, firstJump,
    doubleJump, gravity_player, vert. cbv zeta.
  intros (Hy & Hf & Ht).
  destruct j; [destruct (Ht eq_refl) as [Hy' Hc]; clear Hf Ht
              | destruct (Hf eq_refl) as (Hc & Hy0 & Hv0); clear Hf Ht];
  destruct b; player_simpl;
  repeat match goal with
  | |- context [if ?c then _ else _] => let E := fresh "E" in destruct c eqn:E
  end;
  repeat match goal with H : _ |- _ => progress player_simpl_in H end;
  player_simpl; bool_facts; rewrite ?jsnum_eq in *;
  unfold JUMP_FORCE, GRAVITY in *;
  repeat split; intros; try discriminate; try lia; try lra.
Qed.

Lemma update_vert_ok random sin s input dt :
  vert_ok (vert (player s)) -> vert_ok (vert (player (update random sin s input dt))).
Proof.
  intro H. destruct (gameWon s) eqn:Hw.
  - rewrite update_frozen_eq by exact Hw. exact H.
  - rewrite update_vstep by exact Hw. apply vstep_ok, H.
Qed.

(** X2: in every reachable state the player's height is never negative; a
    player that is not jumping is on the ground ([y = 0], vertical velocity
    0, [jumpCount = 0]); a jumping player is above the ground with
    [jumpCount] 1 or 2. *)
Theorem reachable_vertical random sin d s :
  reachable random sin d s -> vert_ok (vert (player s)).
Proof.
  induction 1 as [s0 | s input dt Hr IH].
  - rewrite reset_player. cbn. repeat split; intros; try discriminate; lra.
  - apply update_vert_ok, IH.
Qed.

(** The speed fixed by the stages before the move. *)
Definition upToSpeed random (s : GameEngine) (input : Input.t) (dt : Q) : GameEngine :=
  accelerate (levelUp (activatePhase random input (updateAbilities dt (decayShake s)))).

Lemma upToSpeed_z random s input dt :
  pos_z (player (upToSpeed random s input dt)) = pos_z (player s).
Proof.
  unfold upToSpeed. rewrite accelerate_player, levelUp_player, activatePhase_player.
  destruct_ifs; unfold pos_z; player_simpl;
    rewrite updateAbilities_player_eq, decayShake_player; apply updateAbilities_player_z.
Qed.

Lemma update_currentSpeed random sin s input dt :
  gameWon s = false ->
  currentSpeed (update random sin s input dt) = currentSpeed (upToSpeed random s input dt).
Proof.
  intro Hw. unfold update. rewrite Hw.
  destruct (updateParticles_core (checkCollisions random (beforeCollisions random sin s input dt)))
    as (-> & _).
  destruct (checkCollisions_frame random (beforeCollisions random sin s input dt))
    as (_ & _ & -> & _).
  rewrite beforeCollisions_upToJump.
  destruct (cleanup_core (worldGen random sin (jumpAndGravity random input (upToJump random s input dt))))
    as (-> & _).
  destruct (worldGen_core random sin (jumpAndGravity random input (upToJump random s input dt)))
    as (-> & _).
  destruct (jumpAndGravity_core random input (upToJump random s input dt)) as (-> & _).
  unfold upToJump. fold (upToSpeed random s input dt).
  destruct (lateral_core input (moveForward (upToSpeed random s input dt))) as (-> & _).
  destruct (moveForward_core (upToSpeed random s input dt)) as (-> & _).
  reflexivity.
Qed.

Lemma update_distance random sin s input dt :
  gameWon s = false ->
  pos_z (player (update random sin s input dt)) ==
  pos_z (player s) + currentSpeed (update random sin s input dt).
Proof.
  intro Hw. rewrite update_currentSpeed by exact Hw. rewrite update_z by exact Hw.
  unfold upToJump. rewrite lateral_player_eq, lateral_player_z.
  fold (upToSpeed random s input dt).
  rewrite moveForward_player. unfold pos_z at 1. player_simpl.
  rewrite jsnum_eq. rewrite pos_z_unfold, upToSpeed_z. reflexivity.
Qed.

Lemma reset_currentSpeed random sin d s0 :
  currentSpeed (reset random sin d s0) = startSpeed (DIFFICULTY_SETTINGS d).
Proof.
  unfold reset. cbv zeta.
  rewrite (generateSlices_keeps random sin currentSpeed) by apply generateSlice_currentSpeed.
  reflexivity.
Qed.

Lemma speed_bounds_aux random sin d s :
  reachable random sin d s ->
  startSpeed (DIFFICULTY_SETTINGS d) <= currentSpeed s <= maxSpeed (DIFFICULTY_SETTINGS d) + 0.2.
Proof.
  intro Hr. split.
  - induction Hr as [s0 | s input dt Hr IH].
    + rewrite reset_currentSpeed. apply Qle_refl.
    + destruct (update_speed_step random sin s input dt) as [_ Hs].
      destruct (Hs (reachable_speed_ok random sin d s Hr)) as [Hle _]. lra.
  - pose proof (reachable_speed_ok random sin d s Hr) as H.
    unfold speed_ok, speed_cap in H. rewrite (reachable_difficulty random sin d s Hr) in H.
    exact H.
Qed.

(** X4: an [update] of a reachable game that is not won moves the player
    forward by exactly the [currentSpeed] it ends with, which is positive:
    the player's [z] strictly increases. *)
Theorem reachable_distance_step random sin d s input dt :
  reachable random sin d s -> gameWon s = false ->
  pos_z (player (update random sin s input dt)) ==
    pos_z (player s) + currentSpeed (update random sin s input dt) /\
  pos_z (player s) < pos_z (player (update random sin s input dt)).
Proof.
  intros Hr Hw. pose proof (update_distance random sin s input dt Hw) as H.
  split; [exact H|].
  destruct (speed_bounds_aux random sin d _ (reachable_update random sin d s input dt Hr))
    as [Hlo _].
  assert (0 < startSpeed (DIFFICULTY_SETTINGS d)) by (destruct d; cbn; lra).
  lra.
Qed.

(** ** Score and winning *)

Definition score_ok (s : GameEngine) : Prop :=
  (gameWon s = true <-> (250 <= score s)%Z) /\ (0 <= score s)%Z /\ (score s mod 10 = 0)%Z.

Ltac frame_hyps :=
  repeat match goal with H : _ |- _ => progress (cbn [fst snd map_player entities particles player lastGenZ currentSpeed score lives level difficulty particleIdCounter goldCollectedInLevel levelTarget gameWon shakeIntensity lastJumpInput lastPhaseInput rng set_entities set_particles set_player set_lastGenZ set_currentSpeed set_score set_lives set_level set_difficulty set_particleIdCounter set_goldCollectedInLevel set_levelTarget set_gameWon set_shakeIntensity set_lastJumpInput set_lastPhaseInput set_rng] in H) end;
  repeat match goal with H : _ /\ _ |- _ => destruct H end;
  repeat match goal with H : ?f ?X = _ |- context [?f ?X] => is_var X; rewrite H end.

Lemma handleCollision_score random s e :
  let s' := snd (handleCollision random s e) in
  (score s' = score s /\ gameWon s' = gameWon s) \/
  (score s' = (score s + 10)%Z /\ gameWon s' = (gameWon s || (250 <=? score s + 10)%Z)).
Proof.
  unfold handleCollision. cbv zeta. proj_simpl.
  destruct (BlockType_beq (Entity.type e) GOLD).
  - gen_spawn. frame_hyps. right.
    destruct (250 <=? score s + 10)%Z; proj_simpl; frame_hyps;
      rewrite ?orb_true_r, ?orb_false_r; split; reflexivity.
  - left. destruct_ifs; gen_spawn; proj_simpl; frame_hyps; proj_simpl; split; reflexivity.
Qed.

Definition score_step (s s' : GameEngine) : Prop :=
  (score s <= score s')%Z /\ (score_ok s -> score_ok s').

Lemma checkCollisions_score_step random s : score_step s (checkCollisions random s).
Proof.
  unfold checkCollisions.
  assert (H : score_step s (snd (collisionLoop random (PlayerState.position (player s)) (entities s) s))).
  { apply collisionLoop_rel.
    - intro. split; [lia | tauto].
    - intros a b c [H1 H2] [H3 H4]. split; [lia | tauto].
    - intros t e. unfold score_step, score_ok.
      destruct (handleCollision_score random t e) as [[-> ->] | [-> ->]].
      + split; [lia | tauto].
      + split; [lia|]. intros ([Hw1 Hw2] & H0 & Hm). split; [|split].
        * destruct (250 <=? score t + 10)%Z eqn:E; rewrite ?orb_true_r, ?orb_false_r.
          -- apply Z.leb_le in E. split; intros; [lia | reflexivity].
          -- apply Z.leb_gt in E. split; intro H; [apply Hw1 in H; lia | apply Hw2; lia].
        * lia.
        * rewrite Z.add_mod, Hm by lia. reflexivity. }
  destruct (collisionLoop random _ (entities s) s) as [es s']. exact H.
Qed.

Lemma update_score_step random sin s input dt : score_step s (update random sin s input dt).
Proof.
  destruct (gameWon s) eqn:Hw.
  - rewrite update_frozen_eq by exact Hw. split; [lia | tauto].
  - unfold update. rewrite Hw.
    destruct (updateParticles_core (checkCollisions random (beforeCollisions random sin s input dt)))
      as (_ & _ & _ & _ & _ & Hg & _ & Hs).
    destruct (checkCollisions_score_step random (beforeCollisions random sin s input dt)) as [H1 H2].
    destruct (beforeCollisions_outcome random sin s input dt) as (_ & Hs' & Hg' & _).
    unfold score_step, score_ok in *. rewrite Hg, Hs. rewrite Hs', Hg' in *. auto.
Qed.

Lemma reset_score random sin d s0 : score (reset random sin d s0) = 0%Z.
Proof.
  unfold reset. cbv zeta.
  rewrite (generateSlices_keeps random sin score) by apply generateSlice_score.
  reflexivity.
Qed.

Lemma score_ok_reachable random sin d s : reachable random sin d s -> score_ok s.
Proof.
  induction 1 as [s0 | s input dt Hr IH].
  - unfold score_ok. rewrite reset_score, reset_gameWon. split; [split; intro; [discriminate | lia] | split; reflexivity || lia].
  - apply (update_score_step random sin s input dt), IH.
Qed.

(** ** Levels *)

Definition level_ok (s : GameEngine) : Prop :=
  (1 <= level s)%Z /\
  levelTarget s = (BASE_LEVEL_TARGET + LEVEL_TARGET_INCREMENT * (level s - 1))%Z /\
  (0 <= goldCollectedInLevel s)%Z.

Lemma level_ok_view s s' : level_view s' = level_view s -> level_ok s -> level_ok s'.
Proof.
  intro Hv. unfold level_ok.
  rewrite (lv_level s'), (lv_target s'), (lv_gold s'), Hv, <- lv_level, <- lv_target, <- lv_gold.
  tauto.
Qed.

Lemma levelUp_level_ok s : level_ok s -> level_ok (levelUp s).
Proof.
  intro H. destruct (Z_le_gt_dec (levelTarget s) (goldCollectedInLevel s)) as [Hle | Hgt].
  - pose proof (levelUp_fire s Hle) as Hv. unfold level_ok in *.
    rewrite (lv_level (levelUp s)), (lv_target (levelUp s)), (lv_gold (levelUp s)), Hv.
    cbn [fst snd]. unfold LEVEL_TARGET_INCREMENT in *. lia.
  - apply (level_ok_view s); [| exact H].
    unfold levelUp. cbv zeta. assert (E : (levelTarget s <=? goldCollectedInLevel s)%Z = false) by (apply Z.leb_gt; lia). rewrite E. reflexivity.
Qed.

Lemma update_level_ok random sin s input dt :
  level_ok s -> score_ok s -> level_ok (update random sin s input dt).
Proof.
  intros H Hs. destruct (gameWon s) eqn:Hw.
  - rewrite update_frozen_eq by exact Hw. exact H.
  - unfold update. rewrite Hw.
    destruct (updateParticles_core (checkCollisions random (beforeCollisions random sin s input dt)))
      as (_ & Hl & _ & Ht & Hg & _).
    destruct (checkCollisions_gold_score random (beforeCollisions random sin s input dt))
      as (Hl' & Ht' & Hgs).
    destruct (checkCollisions_score_step random (beforeCollisions random sin s input dt))
      as [Hsc _].
    assert (Hb : level_ok (beforeCollisions random sin s input dt)).
    { apply (level_ok_view (levelUp (activatePhase random input (updateAbilities dt (decayShake s))))).
      - apply beforeCollisions_level_view.
      - apply levelUp_level_ok. apply (level_ok_view s); [| exact H].
        rewrite (core_level_view _ _ (activatePhase_core _ _ _)),
          (core_level_view _ _ (updateAbilities_core _ _)), (core_level_view _ _ (decayShake_core _)).
        reflexivity. }
    unfold level_ok in *. rewrite Hl, Ht, Hg, Hl', Ht'. lia.
Qed.

Lemma reset_level_view random sin d s0 :
  level_view (reset random sin d s0) = (1%Z, BASE_LEVEL_TARGET, 0%Z, 0%Z).
Proof.
  unfold level_view, reset. cbv zeta.
  rewrite (generateSlices_keeps random sin level) by apply generateSlice_level.
  rewrite (generateSlices_keeps random sin levelTarget) by apply generateSlice_levelTarget.
  rewrite (generateSlices_keeps random sin goldCollectedInLevel) by apply generateSlice_goldCollectedInLevel.
  rewrite (generateSlices_keeps random sin score) by apply generateSlice_score.
  reflexivity.
Qed.

(** X6: in every reachable state [level >= 1], [levelTarget] is
    [BASE_LEVEL_TARGET + LEVEL_TARGET_INCREMENT * (level - 1)], and
    [goldCollectedInLevel >= 0]. *)
Theorem reachable_level_ok random sin d s : reachable random sin d s -> level_ok s.
Proof.
  intro Hr. induction Hr as [s0 | s input dt Hr IH].
  - unfold level_ok. rewrite (lv_level (reset _ _ _ _)), (lv_target (reset _ _ _ _)),
      (lv_gold (reset _ _ _ _)), reset_level_view. cbn. lia.
  - apply update_level_ok; [exact IH | apply (score_ok_reachable random sin d s Hr)].
Qed.

(** ** Screen shake *)

Definition shake_ok (s : GameEngine) : Prop := 0 <= shakeIntensity s <= 0.5.

Section Shake.
Variable random : nat -> Q.
Variable sin : Q -> Q.

Ltac stage_shake :=
  cbv zeta; proj_simpl; destruct_ifs; gen_spawn; gen_slice; frame_finish.

Definition keeps_shake (s s' : GameEngine) : Prop := shakeIntensity s' = shakeIntensity s.

Lemma updateAbilities_shake dt s : keeps_shake s (updateAbilities dt s).
Proof. reflexivity. Qed.
Lemma activatePhase_shake input s : keeps_shake s (activatePhase random input s).
Proof. unfold keeps_shake, activatePhase. stage_shake. Qed.
Lemma levelUp_shake s : keeps_shake s (levelUp s).
Proof. unfold keeps_shake, levelUp. stage_shake. Qed.
Lemma accelerate_shake s : keeps_shake s (accelerate s).
Proof. unfold keeps_shake, accelerate. stage_shake. Qed.
Lemma moveForward_shake s : keeps_shake s (moveForward s).
Proof. reflexivity. Qed.
Lemma lateral_shake input s : keeps_shake s (lateral input s).
Proof. reflexivity. Qed.
Lemma jumpAndGravity_shake input s : keeps_shake s (jumpAndGravity random input s).
Proof. unfold keeps_shake, jumpAndGravity. stage_shake. Qed.
Lemma worldGen_shake s : keeps_shake s (worldGen random sin s).
Proof. unfold keeps_shake, worldGen. stage_shake. Qed.
Lemma cleanup_shake s : keeps_shake s (cleanup s).
Proof. reflexivity. Qed.
Lemma updateParticles_shake s : keeps_shake s (updateParticles s).
Proof. reflexivity. Qed.

Lemma decayShake_shake_ok s : shake_ok s -> shake_ok (decayShake s).
Proof.
  unfold shake_ok, decayShake. intro H.
  destruct (Qltb 0.001 (shakeIntensity s)) eqn:E; proj_simpl; [rewrite jsnum_eq |]; lra.
Qed.

Lemma handleCollision_shake s e :
  shake_ok s -> shake_ok (snd (handleCollision random s e)).
Proof.
  unfold shake_ok, handleCollision. cbv zeta. proj_simpl. intro H.
  destruct_ifs; gen_spawn; proj_simpl; frame_hyps; proj_simpl; lra.
Qed.

Lemma checkCollisions_shake s : shake_ok s -> shake_ok (checkCollisions random s).
Proof.
  unfold checkCollisions. intro H.
  assert (H' : shake_ok (snd (collisionLoop random (PlayerState.position (player s)) (entities s) s))).
  { apply (collisionLoop_rel random (fun a b => shake_ok a -> shake_ok b)); auto.
    apply handleCollision_shake. }
  destruct (collisionLoop random _ (entities s) s) as [es s']. exact H'.
Qed.

Lemma update_shake s input dt : shake_ok s -> shake_ok (update random sin s input dt).
Proof.
  intro H. unfold update. destruct (gameWon s); [exact H|].
  unfold shake_ok. rewrite updateParticles_shake. apply checkCollisions_shake.
  unfold beforeCollisions, shake_ok.
  rewrite cleanup_shake, worldGen_shake, jumpAndGravity_shake, lateral_shake, moveForward_shake,
    accelerate_shake, levelUp_shake, activatePhase_shake, updateAbilities_shake.
  apply decayShake_shake_ok, H.
Qed.

Lemma reset_shake d s0 : shakeIntensity (reset random sin d s0) = 0.
Proof.
  unfold reset. cbv zeta.
  rewrite (generateSlices_keeps random sin shakeIntensity) by apply generateSlice_shakeIntensity.
  reflexivity.
Qed.

(** X7: in every reachable state the screen-shake intensity lies in
    [[0, 0.5]]. *)
Theorem reachable_shake_ok d s : reachable random sin d s -> shake_ok s.
Proof.
  induction 1.
  - unfold shake_ok. rewrite reset_shake. lra.
  - apply update_shake. assumption.
Qed.
End Shake.

(** ** Particles *)

Definition parts_ok (ps : list Particle.t) (c : Z) : Prop :=
  StronglySorted (fun a b => (Particle.id a < Particle.id b)%Z) ps /\
  Forall (fun p => (Particle.id p < c)%Z /\ 0 < Particle.life p <= 1) ps.

Definition part_ok (s : GameEngine) : Prop := parts_ok (particles s) (particleIdCounter s).

Lemma StronglySorted_app_single {A} (R : A -> A -> Prop) l x :
  StronglySorted R l -> Forall (fun a => R a x) l -> StronglySorted R (l ++ [x]).
Proof.
  induction l as [| a l IH]; intros Hs Hf; cbn.
  - repeat constructor.
  - inversion Hs; subst. inversion Hf; subst. constructor.
    + apply IH; assumption.
    + apply Forall_app. split; [assumption | constructor; [assumption | constructor]].
Qed.

Lemma StronglySorted_filter {A} (R : A -> A -> Prop) f l :
  StronglySorted R l -> StronglySorted R (filter f l).
Proof.
  induction l as [| a l IH]; intros Hs; cbn; [constructor|].
  inversion Hs; subst. destruct (f a).
  - constructor; [apply IH; assumption|].
    apply Forall_forall. intros y Hy. apply filter_In in Hy.
    eapply Forall_forall in H2; [exact H2 | apply Hy].
  - apply IH; assumption.
Qed.

Lemma StronglySorted_map_same {A B} (R : A -> A -> Prop) (R' : B -> B -> Prop) (g : A -> B) l :
  (forall a b, R a b -> R' (g a) (g b)) ->
  StronglySorted R l -> StronglySorted R' (map g l).
Proof.
  intros Hg. induction l as [| a l IH]; intros Hs; cbn; [constructor|].
  inversion Hs; subst. constructor; [apply IH; assumption|].
  apply Forall_map. eapply Forall_impl; [|eassumption]. intros b. apply Hg.
Qed.

Lemma keeps_part s s' :
  particles s' = particles s -> particleIdCounter s' = particleIdCounter s ->
  part_ok s -> part_ok s'.
Proof. unfold part_ok. intros -> ->. exact (fun H => H). Qed.

Section Particles.
Variable random : nat -> Q.
Variable sin : Q -> Q.

Lemma spawnParticles_part_ok pos c n m s :
  part_ok s -> part_ok (spawnParticles random pos c n m s).
Proof.
  revert s. induction n as [| n IH]; intros s H; [exact H|].
  cbn [spawnParticles draw]. cbv zeta. apply IH.
  unfold part_ok, parts_ok in *. proj_simpl. destruct H as [Hs Hf]. split.
  - apply StronglySorted_app_single; [assumption|].
    eapply Forall_impl; [|exact Hf]. cbn. intros a Ha. lia.
  - apply Forall_app. split.
    + eapply Forall_impl; [|exact Hf]. cbn. intros a Ha. destruct Ha; split; [lia | assumption].
    + constructor; [cbn; split; [lia | lra] | constructor].
Qed.

Lemma spawnParticles_counter pos c n m s :
  (particleIdCounter s <= particleIdCounter (spawnParticles random pos c n m s))%Z.
Proof.
  revert s. induction n as [| n IH]; intros s; [cbn [spawnParticles]; lia|].
  cbn [spawnParticles draw]. cbv zeta.
  etransitivity; [|apply IH]. proj_simpl. lia.
Qed.

Lemma part_ok_map_player f s : part_ok s -> part_ok (map_player f s).
Proof. exact (fun H => H). Qed.
Lemma part_ok_set_lastPhaseInput v s : part_ok s -> part_ok (set_lastPhaseInput v s).
Proof. exact (fun H => H). Qed.
Lemma part_ok_set_lastJumpInput v s : part_ok s -> part_ok (set_lastJumpInput v s).
Proof. exact (fun H => H). Qed.
Lemma part_ok_set_score v s : part_ok s -> part_ok (set_score v s).
Proof. exact (fun H => H). Qed.
Lemma part_ok_set_goldCollectedInLevel v s : part_ok s -> part_ok (set_goldCollectedInLevel v s).
Proof. exact (fun H => H). Qed.
Lemma part_ok_set_gameWon v s : part_ok s -> part_ok (set_gameWon v s).
Proof. exact (fun H => H). Qed.
Lemma part_ok_set_lives v s : part_ok s -> part_ok (set_lives v s).
Proof. exact (fun H => H). Qed.
Lemma part_ok_set_shakeIntensity v s : part_ok s -> part_ok (set_shakeIntensity v s).
Proof. exact (fun H => H). Qed.

(** Peel the stage's setters off a [part_ok] goal, outermost first. *)
Ltac part_tac :=
  cbv zeta; destruct_ifs; cbn [fst snd];
  repeat match goal with
  | H : part_ok ?s |- part_ok ?s => exact H
  | |- part_ok (spawnParticles _ _ _ _ _ _) => apply spawnParticles_part_ok
  | |- part_ok (map_player _ _) => apply part_ok_map_player
  | |- part_ok (set_lastPhaseInput _ _) => apply part_ok_set_lastPhaseInput
  | |- part_ok (set_lastJumpInput _ _) => apply part_ok_set_lastJumpInput
  | |- part_ok (set_score _ _) => apply part_ok_set_score
  | |- part_ok (set_goldCollectedInLevel _ _) => apply part_ok_set_goldCollectedInLevel
  | |- part_ok (set_gameWon _ _) => apply part_ok_set_gameWon
  | |- part_ok (set_lives _ _) => apply part_ok_set_lives
  | |- part_ok (set_shakeIntensity _ _) => apply part_ok_set_shakeIntensity
  end.

Lemma activatePhase_part input s : part_ok s -> part_ok (activatePhase random input s).
Proof. intro H. unfold activatePhase. part_tac. Qed.

Lemma jumpAndGravity_part input s : part_ok s -> part_ok (jumpAndGravity random input s).
Proof. intro H. unfold jumpAndGravity. part_tac. Qed.

Lemma handleCollision_part s e : part_ok s -> part_ok (snd (handleCollision random s e)).
Proof. intro H. unfold handleCollision. part_tac. Qed.

Lemma generateSlice_particleIdCounter zi s :
  particleIdCounter (generateSlice random sin zi s) = particleIdCounter s.
Proof.
  unfold generateSlice, push_entity. cbv zeta.
  repeat first
    [ progress destruct_ifs
    | match goal with
      | |- context [draw random ?s0] =>
          let H := fresh "Hd" in
          assert (H : snd (draw random s0) = set_rng (S (rng s0)) s0) by reflexivity;
          destruct (draw random s0) as [?q ?X]; cbn [snd] in H; subst
      end ];
  proj_simpl; reflexivity.
Qed.

Lemma worldGen_part s : part_ok s -> part_ok (worldGen random sin s).
Proof.
  intro H. unfold worldGen. cbv zeta. destruct_ifs; [|exact H].
  apply (keeps_part s); [apply generateSlice_particles | apply generateSlice_particleIdCounter | exact H].
Qed.

Lemma checkCollisions_part s : part_ok s -> part_ok (checkCollisions random s).
Proof.
  unfold checkCollisions. intro H.
  assert (H' : part_ok (snd (collisionLoop random (PlayerState.position (player s)) (entities s) s))).
  { apply (collisionLoop_rel random (fun a b => part_ok a -> part_ok b)); auto.
    apply handleCollision_part. }
  destruct (collisionLoop random _ (entities s) s) as [es s']. exact H'.
Qed.

Lemma updateParticles_part s : part_ok s -> part_ok (updateParticles s).
Proof.
  unfold part_ok, parts_ok, updateParticles. proj_simpl. intros [Hs Hf]. split.
  - apply StronglySorted_filter. eapply StronglySorted_map_same; [|exact Hs]. cbn. auto.
  - apply Forall_forall. intros p Hp. apply filter_In in Hp. destruct Hp as [Hp Hl].
    apply in_map_iff in Hp. destruct Hp as [q [<- Hq]].
    eapply Forall_forall in Hf; [|exact Hq].
    unfold stepParticle in Hl |- *. cbn [Particle.id Particle.life] in Hl |- *.
    apply Qltb_true in Hl. rewrite jsnum_eq in *. split; [lia | lra].
Qed.

Lemma levelUp_part s : part_ok s -> part_ok (levelUp s).
Proof. intro H. unfold levelUp. cbv zeta. destruct_ifs; exact H. Qed.

Lemma accelerate_part s : part_ok s -> part_ok (accelerate s).
Proof. intro H. unfold accelerate. cbv zeta. destruct_ifs; exact H. Qed.

Lemma decayShake_part s : part_ok s -> part_ok (decayShake s).
Proof. intro H. unfold decayShake. destruct_ifs; exact H. Qed.

Lemma cleanup_part s : part_ok s -> part_ok (cleanup s).
Proof. exact (fun H => H). Qed.

Lemma update_part s input dt : part_ok s -> part_ok (update random sin s input dt).
Proof.
  intro H. unfold update. destruct (gameWon s); [exact H|].
  apply updateParticles_part, checkCollisions_part. unfold beforeCollisions.
  apply cleanup_part, worldGen_part, jumpAndGravity_part, part_ok_map_player, part_ok_map_player,
    accelerate_part, levelUp_part, activatePhase_part, part_ok_map_player, decayShake_part, H.
Qed.

Lemma reset_part d s0 : part_ok (reset random sin d s0).
Proof.
  unfold reset. cbv zeta. unfold part_ok.
  rewrite (generateSlices_keeps random sin particles) by apply generateSlice_particles.
  rewrite (generateSlices_keeps random sin particleIdCounter) by apply generateSlice_particleIdCounter.
  split; constructor.
Qed.

(** X8: in every reachable state the particle list is strictly sorted by
    id, every particle id is below [particleIdCounter] (so the ids
    [p_<n>] are distinct), and every particle's [life] is in [(0, 1]]. *)
Theorem reachable_part_ok d s : reachable random sin d s -> part_ok s.
Proof.
  induction 1; [apply reset_part | apply update_part; assumption].
Qed.
End Particles.

(** Whether the collision loop marks entity [e] for a player [p]. *)
Definition collides_with (p : PlayerState.t) (e : Entity.t) : bool :=
  negb (Entity.collected e) && overlaps (PlayerState.position p) e &&
  (BlockType_beq (Entity.type e) GOLD || negb (PlayerState.phaseActive p)).

Definition mark (p : PlayerState.t) (e : Entity.t) : Entity.t :=
  if collides_with p e then Entity.set_collected true e else e.

Section Collisions.
Variable random : nat -> Q.

Lemma handleCollision_fst s e :
  fst (handleCollision random s e) =
  if BlockType_beq (Entity.type e) GOLD || negb (PlayerState.phaseActive (player s))
     && negb (Entity.collected e)
  then Entity.set_collected true e else e.
Proof.
  unfold handleCollision. cbv zeta.
  destruct (BlockType_beq (Entity.type e) GOLD); cbn [orb andb negb]; [destruct_ifs; reflexivity|].
  destruct (PlayerState.phaseActive (player s)); cbn [orb andb negb]; [reflexivity|].
  destruct (Entity.collected e); cbn [orb andb negb]; [reflexivity|].
  destruct_ifs; reflexivity.
Qed.

Lemma handleCollision_player s e :
  player (snd (handleCollision random s e)) = player s.
Proof. destruct (handleCollision_frame random s e) as [H _]. exact H. Qed.

Lemma collisionLoop_fst pl es s :
  player s = pl ->
  fst (collisionLoop random (PlayerState.position pl) es s) = map (mark pl) es.
Proof.
  revert s. induction es as [| e es IH]; intros s Hp; [reflexivity|].
  cbn [collisionLoop].
  destruct (if Entity.collected e then (e, s)
            else if overlaps (PlayerState.position pl) e then handleCollision random s e
            else (e, s)) as [e' s1] eqn:E.
  assert (Hs1 : player s1 = pl /\ e' = mark pl e).
  { unfold mark, collides_with.
    destruct (Entity.collected e) eqn:Ec; cbn [negb andb].
    - inversion E; subst. auto.
    - destruct (overlaps (PlayerState.position pl) e) eqn:Eo; cbn [andb].
      + pose proof (handleCollision_player s e) as Hp1.
        pose proof (handleCollision_fst s e) as Hf1.
        rewrite E in Hp1, Hf1. cbn [fst snd] in Hp1, Hf1. rewrite Ec, Hp in Hf1.
        rewrite Hp in Hp1. split; [exact Hp1|]. rewrite Hf1.
        cbn [negb andb]. rewrite andb_true_r. reflexivity.
      + inversion E; subst. auto. }
  destruct Hs1 as [Hs1 He'].
  specialize (IH s1 Hs1).
  destruct (collisionLoop random (PlayerState.position pl) es s1) as [es' s2].
  cbn [fst] in *. rewrite He', IH. reflexivity.
Qed.

Lemma checkCollisions_entities_mark s :
  entities (checkCollisions random s) = map (mark (player s)) (entities s).
Proof.
  unfold checkCollisions.
  pose proof (collisionLoop_fst (player s) (entities s) s eq_refl) as H.
  destruct (collisionLoop random _ (entities s) s) as [es s']. exact H.
Qed.
End Collisions.

(** The ids a slice's extra blocks may carry. *)
Definition slice_extra_id (zi : Z) (i : EntityId) : Prop :=
  i = obs_id zi \/ i = obs_stack_id zi \/ i = gold_id zi.

Definition slice_extra_ok (lvl zi : Z) (e : Entity.t) : Prop :=
  slice_extra_id zi (Entity.id e) /\
  Point3D.z (Entity.position e) = inject_Z zi /\ Entity.collected e = false /\
  (Entity.type e = GOLD \/ In (Entity.type e) (availableObstacles lvl)).

Lemma nth_availableObstacles k lvl :
  In (nth k (availableObstacles lvl) STONE) (availableObstacles lvl).
Proof.
  destruct (nth_in_or_default k (availableObstacles lvl) STONE) as [H | ->]; [exact H|].
  left. reflexivity.
Qed.

(** Split [generateSlice] into its five outcomes, naming the draws. *)
Ltac slice_cases random :=
  unfold generateSlice, push_entity; cbv zeta;
  repeat first
    [ progress destruct_ifs
    | match goal with
      | |- context [draw random ?s0] =>
          let H := fresh "Hd" in
          assert (H : snd (draw random s0) = set_rng (S (rng s0)) s0) by reflexivity;
          destruct (draw random s0) as [?q ?X]; cbn [snd] in H; subst
      end ];
  proj_simpl.

Section Slice.
Variable random : nat -> Q.
Variable sin : Q -> Q.

Lemma generateSlice_shape zi s :
  exists extra,
    entities (generateSlice random sin zi s) = (entities s ++ ground_row zi ++ extra)%list /\
    ((zi <= 10)%Z -> extra = []) /\ (List.length extra <= 2)%nat /\
    Forall (slice_extra_ok (level s) zi) extra.
Proof.
  unfold generateSlice, push_entity. cbv zeta.
  destruct (10 <? zi)%Z eqn:Ez.
  2:{ exists []. proj_simpl. rewrite app_nil_r.
      split; [reflexivity|]. split; [reflexivity|]. split; [cbn; lia | constructor]. }
  apply Z.ltb_lt in Ez.
  repeat first
    [ progress destruct_ifs
    | match goal with
      | |- context [draw random ?s0] =>
          let H := fresh "Hd" in
          assert (H : snd (draw random s0) = set_rng (S (rng s0)) s0) by reflexivity;
          destruct (draw random s0) as [?q ?X]; cbn [snd] in H; subst
      end ];
  proj_simpl; rewrite <- ?app_assoc;
  match goal with
  | |- exists x, (_ ++ ground_row _ ++ ?l)%list = _ /\ _ => exists l
  | |- exists x, (_ ++ ground_row _)%list = _ /\ _ => exists []
  end;
  (split; [rewrite ?app_nil_r; reflexivity|]);
  (split; [intro; lia|]); cbn [List.length app];
  (split; [lia|]);
  repeat (apply Forall_cons || apply Forall_nil);
  unfold slice_extra_ok, slice_extra_id;
  cbn [Entity.id Entity.position Entity.collected Entity.type Point3D.z];
  (split; [first [left; reflexivity | right; left; reflexivity | right; right; reflexivity]|]);
  (split; [reflexivity|]); (split; [reflexivity|]);
  first [ left; reflexivity
        | right; apply nth_availableObstacles
        | right; apply in_or_app; left; cbn [In]; auto ].
Qed.
End Slice.

(** The block types and shapes the engine creates. *)
Definition ent_ok (e : Entity.t) : Prop :=
  match Entity.type e with
  | GOLD => Entity.size e == 0.5 /\ Entity.rotation e = Some 0
  | GRASS | STONE | TNT | CREEPER | SKELETON =>
      Entity.size e == 1 /\ Entity.rotation e = None
  | DIRT | WOOD | LEAVES | LAVA => False
  end.

Lemma ground_row_ent_ok zi : Forall ent_ok (ground_row zi).
Proof.
  unfold ground_row. cbn [map].
  repeat (apply Forall_cons || apply Forall_nil); unfold ent_ok; cbn [Entity.type];
  destruct_ifs; cbn; split; reflexivity.
Qed.

Lemma obstacle_ent_ok i t p lvl :
  In t (availableObstacles lvl) -> ent_ok (Entity.mk i t p 1 false None).
Proof.
  unfold availableObstacles. intro H. apply in_app_or in H.
  unfold ent_ok; cbn [Entity.type Entity.size Entity.rotation].
  destruct H as [H | H]; [|apply in_app_or in H; destruct H as [H | H]];
    [| destruct (2 <=? lvl)%Z | destruct (3 <=? lvl)%Z]; cbn in H;
    repeat (destruct H as [<- | H]; [split; reflexivity|]); contradiction.
Qed.

Section SliceEnt.
Variable random : nat -> Q.
Variable sin : Q -> Q.

Lemma generateSlice_ent_ok zi s :
  Forall ent_ok (entities s) -> Forall ent_ok (entities (generateSlice random sin zi s)).
Proof.
  intro H. slice_cases random;
  repeat rewrite Forall_app; repeat split; try exact H; try apply ground_row_ent_ok;
  repeat (apply Forall_cons || apply Forall_nil);
  first [ apply (obstacle_ent_ok _ _ _ (level s)); first [apply nth_availableObstacles | left; reflexivity | right; left; reflexivity]
        | unfold ent_ok; cbn; split; reflexivity ].
Qed.
End SliceEnt.

Lemma Forall_filter' {A} (P : A -> Prop) f l : Forall P l -> Forall P (filter f l).
Proof.
  intro H. apply Forall_forall. intros x Hx. apply filter_In in Hx.
  eapply Forall_forall in H; [exact H | apply Hx].
Qed.

Section Entities.
Variable random : nat -> Q.
Variable sin : Q -> Q.

(** [entities] after [update]: the collision marks applied to the entities
    that [beforeCollisions] leaves. *)
Lemma update_entities_eq s input dt :
  gameWon s = false ->
  entities (update random sin s input dt) =
    map (mark (player (beforeCollisions random sin s input dt)))
        (entities (beforeCollisions random sin s input dt)) /\
  player (update random sin s input dt) = player (beforeCollisions random sin s input dt).
Proof.
  intros Hw. unfold update. rewrite Hw. split.
  - rewrite updateParticles_entities. apply checkCollisions_entities_mark.
  - rewrite updateParticles_player, checkCollisions_player. reflexivity.
Qed.

Lemma entities_s1 s input dt :
  entities (jumpAndGravity random input (lateral input (moveForward (accelerate (levelUp
    (activatePhase random input (updateAbilities dt (decayShake s)))))))) = entities s.
Proof.
  rewrite jumpAndGravity_entities, lateral_entities, moveForward_entities, accelerate_entities,
    levelUp_entities, activatePhase_entities, updateAbilities_entities.
  apply decayShake_entities.
Qed.

Lemma worldGen_ent_ok s : Forall ent_ok (entities s) -> Forall ent_ok (entities (worldGen random sin s)).
Proof.
  intro H. unfold worldGen. cbv zeta. destruct_ifs; [|exact H].
  apply generateSlice_ent_ok, H.
Qed.

Lemma mark_ent_ok p e : ent_ok e -> ent_ok (mark p e).
Proof. unfold mark. destruct_ifs; exact (fun H => H). Qed.

Lemma update_ent_ok s input dt :
  Forall ent_ok (entities s) -> Forall ent_ok (entities (update random sin s input dt)).
Proof.
  intro H. destruct (gameWon s) eqn:Hw.
  - unfold update. rewrite Hw. exact H.
  - destruct (update_entities_eq s input dt Hw) as [-> _].
    apply Forall_map. eapply Forall_impl; [intros e; apply mark_ent_ok|].
    unfold beforeCollisions, cleanup. proj_simpl. apply Forall_filter'. apply worldGen_ent_ok.
    rewrite entities_s1. exact H.
Qed.

Lemma generateSlices_ent_ok zs s :
  Forall ent_ok (entities s) -> Forall ent_ok (entities (generateSlices random sin zs s)).
Proof.
  unfold generateSlices. revert s. induction zs as [| zi zs IH]; intros s H; [exact H|].
  cbn [fold_left]. apply IH, generateSlice_ent_ok, H.
Qed.

Lemma reset_ent_ok d s0 : Forall ent_ok (entities (reset random sin d s0)).
Proof. unfold reset. cbv zeta. apply generateSlices_ent_ok. constructor. Qed.

(** X11: every entity of a reachable state is GRASS, STONE, TNT, CREEPER
    or SKELETON of size 1 without rotation, or GOLD of size 0.5 with
    rotation 0; DIRT, WOOD, LEAVES and LAVA blocks never occur. *)
Theorem reachable_ent_ok d s : reachable random sin d s -> Forall ent_ok (entities s).
Proof. induction 1; [apply reset_ent_ok | apply update_ent_ok; assumption]. Qed.
End Entities.

(** No entity is more than five blocks behind the player. *)
Definition behind_ok (s : GameEngine) : Prop :=
  Forall (fun e => Point3D.z (PlayerState.position (player s)) - 5 < Point3D.z (Entity.position e))
    (entities s).

Lemma ground_row_z zi : Forall (fun e => Point3D.z (Entity.position e) = inject_Z zi) (ground_row zi).
Proof. unfold ground_row. cbn [map]. repeat constructor. Qed.

Section Behind.
Variable random : nat -> Q.
Variable sin : Q -> Q.

Lemma update_behind_ok s input dt : behind_ok s -> behind_ok (update random sin s input dt).
Proof.
  intro H. destruct (gameWon s) eqn:Hw.
  - unfold update. rewrite Hw. exact H.
  - unfold behind_ok. destruct (update_entities_eq random sin s input dt Hw) as [-> ->].
    apply Forall_map. unfold beforeCollisions, cleanup. proj_simpl.
    apply Forall_forall. intros e He. apply filter_In in He. destruct He as [_ He].
    apply Qltb_true in He. unfold mark. destruct_ifs; exact He.
Qed.

Lemma generateSlices_nonneg zs s :
  Forall (fun zi => (0 <= zi)%Z) zs ->
  Forall (fun e => 0 <= Point3D.z (Entity.position e)) (entities s) ->
  Forall (fun e => 0 <= Point3D.z (Entity.position e)) (entities (generateSlices random sin zs s)).
Proof.
  unfold generateSlices. revert s. induction zs as [| zi zs IH]; intros s Hz H; [exact H|].
  inversion Hz; subst. cbn [fold_left]. apply IH; [assumption|].
  destruct (generateSlice_shape random sin zi s) as (extra & -> & _ & _ & Hx).
  assert (Hzi : 0 <= inject_Z zi) by (change 0 with (inject_Z 0); rewrite <- Zle_Qle; lia).
  repeat rewrite Forall_app. split; [exact H|]. split.
  - eapply Forall_impl; [|apply ground_row_z]. intros e ->. exact Hzi.
  - eapply Forall_impl; [|exact Hx]. intros e (_ & -> & _). exact Hzi.
Qed.

Lemma reset_behind_ok d s0 : behind_ok (reset random sin d s0).
Proof.
  unfold behind_ok, reset. cbv zeta.
  rewrite (generateSlices_keeps random sin player) by apply generateSlice_player.
  cbn [player initial_player PlayerState.position Point3D.z].
  eapply Forall_impl; [|apply generateSlices_nonneg].
  - intros e He. cbv beta in He. lra.
  - apply Forall_forall. intros zi Hzi. apply in_map_iff in Hzi. destruct Hzi as (n & <- & _). lia.
  - constructor.
Qed.

(** X12: in every reachable state every entity lies less than five units
    behind the player: [z > player.z - 5]. *)
Theorem reachable_behind_ok d s : reachable random sin d s -> behind_ok s.
Proof. induction 1; [apply reset_behind_ok | apply update_behind_ok; assumption]. Qed.
End Behind.

(** ** Colours and fog *)

(** [hexToRgb] inverse: two lowercase hex digits of a byte. *)
Definition hex_digit (d : Z) : ascii :=
  if (d <? 10)%Z then ascii_of_nat (Z.to_nat (48 + d)) else ascii_of_nat (Z.to_nat (87 + d)).

Definition hex2 (n : Z) : string :=
  String (hex_digit (n / 16)) (String (hex_digit (n mod 16)) EmptyString).

Lemma hex_value_digit d : (0 <= d < 16)%Z -> hex_value (hex_digit d) = Some d.
Proof.
  intros Hd.
  assert (H : d = 0%Z \/ d = 1%Z \/ d = 2%Z \/ d = 3%Z \/ d = 4%Z \/ d = 5%Z \/ d = 6%Z \/
              d = 7%Z \/ d = 8%Z \/ d = 9%Z \/ d = 10%Z \/ d = 11%Z \/ d = 12%Z \/
              d = 13%Z \/ d = 14%Z \/ d = 15%Z) by lia.
  repeat destruct H as [-> | H]; [..| subst]; reflexivity.
Qed.

Lemma hex_pair_hex2 n :
  (0 <= n <= 255)%Z -> hex_pair (hex_digit (n / 16)) (hex_digit (n mod 16)) = Some n.
Proof.
  intros Hn. unfold hex_pair.
  rewrite (hex_value_digit (n / 16)) by (split; [apply Z.div_pos | apply Z.div_lt_upper_bound]; lia).
  rewrite (hex_value_digit (n mod 16)) by (apply Z.mod_pos_bound; lia).
  f_equal. pose proof (Z.div_mod n 16). lia.
Qed.



Definition channel_ok (v : Z) : Prop := (0 <= v <= 255)%Z.


Lemma strip_hash_digit d s :
  (0 <= d < 16)%Z -> strip_hash (String (hex_digit d) s) = String (hex_digit d) s.
Proof.
  intros Hd.
  assert (H : d = 0%Z \/ d = 1%Z \/ d = 2%Z \/ d = 3%Z \/ d = 4%Z \/ d = 5%Z \/ d = 6%Z \/
              d = 7%Z \/ d = 8%Z \/ d = 9%Z \/ d = 10%Z \/ d = 11%Z \/ d = 12%Z \/
              d = 13%Z \/ d = 14%Z \/ d = 15%Z) by lia.
  repeat destruct H as [-> | H]; [..| subst]; reflexivity.
Qed.

(** X14: [hexToRgb] inverts the two-digit hexadecimal encoding: for
    channels in [0..255], the six-digit string, with or without a leading
    [#], decodes to those channels. *)
Theorem hexToRgb_hex2 r g b :
  channel_ok r -> channel_ok g -> channel_ok b ->
  hexToRgb ("#" ++ hex2 r ++ hex2 g ++ hex2 b) = mkRgb r g b /\
  hexToRgb (hex2 r ++ hex2 g ++ hex2 b) = mkRgb r g b.
Proof.
  unfold channel_ok. intros Hr Hg Hb. unfold hexToRgb, hex2. cbv zeta. cbn [append].
  rewrite strip_hash_digit by (split; [apply Z.div_pos | apply Z.div_lt_upper_bound]; lia).
  cbn [strip_hash].
  rewrite !hex_pair_hex2 by assumption. split; reflexivity.
Qed.

Definition between (lo hi v : Z) : Prop := (Z.min lo hi <= v <= Z.max lo hi)%Z.

Lemma Qfloor_unique (k : Z) (y : Q) : inject_Z k <= y < inject_Z (k + 1) -> Qfloor y = k.
Proof.
  intros [H1 H2].
  pose proof (Qfloor_le y) as F1. pose proof (Qlt_floor y) as F2.
  assert (A : (Qfloor y < k + 1)%Z) by (rewrite Zlt_Qlt; lra).
  assert (B : (k < Qfloor y + 1)%Z) by (rewrite Zlt_Qlt; lra).
  lia.
Qed.

Lemma Math_round_int (z : Z) (x : Q) : x == inject_Z z -> Math_round x = z.
Proof.
  intros Hx. unfold Math_round. apply Qfloor_unique.
  rewrite inject_Z_plus, Hx. change (inject_Z 1) with 1. lra.
Qed.

Lemma Math_round_bounds (lo hi : Z) (x : Q) :
  inject_Z lo <= x <= inject_Z hi -> (lo <= Math_round x <= hi)%Z.
Proof.
  intros [H1 H2]. unfold Math_round.
  pose proof (Qfloor_le (x + (1 # 2))) as F1. pose proof (Qlt_floor (x + (1 # 2))) as F2.
  split.
  - assert (lo < Qfloor (x + (1 # 2)) + 1)%Z by (rewrite Zlt_Qlt; lra). lia.
  - assert (Qfloor (x + (1 # 2)) < hi + 1)%Z by (rewrite Zlt_Qlt, inject_Z_plus; change (inject_Z 1) with 1; lra). lia.
Qed.

Lemma lerp_between (a c : Z) (t : Q) :
  0 <= t <= 1 ->
  inject_Z (Z.min a c) <= lerp (inject_Z a) (inject_Z c) t <= inject_Z (Z.max a c).
Proof.
  intros Ht. unfold lerp.
  destruct (Z.le_ge_cases a c) as [H | H].
  - rewrite Z.min_l, Z.max_r by exact H. rewrite Zle_Qle in H. split; nra.
  - rewrite Z.min_r, Z.max_l by lia. rewrite Zle_Qle in H. split; nra.
Qed.

Lemma fogFactor_range d : 0 <= fogFactor d <= 1.
Proof.
  unfold fogFactor. destruct (fog_clamp_bounds ((d - 5) / (FOG_DISTANCE - 10))). split; nra.
Qed.

Lemma fogFactor_near d : d <= 5 -> fogFactor d == 0.
Proof.
  intros Hd. unfold fogFactor.
  assert (Hm : Qmin 1 ((d - 5) / (FOG_DISTANCE - 10)) <= 0).
  { apply Q.min_le_iff; right. rewrite fog_clamp_eq. lra. }
  rewrite (Q.max_l 0 _ Hm). reflexivity.
Qed.

Lemma fogFactor_far d : 20 <= d -> fogFactor d == 1.
Proof.
  intros Hd. unfold fogFactor.
  assert (Hv : 1 <= (d - 5) / (FOG_DISTANCE - 10)) by (rewrite fog_clamp_eq; lra).
  rewrite (Q.min_l 1 _ Hv), (Q.max_r 0 1) by lra. reflexivity.
Qed.

Lemma round_lerp (a c : Z) (t : Q) :
  0 <= t <= 1 ->
  between a c (Math_round (lerp (inject_Z a) (inject_Z c) t)) /\
  (t == 0 -> Math_round (lerp (inject_Z a) (inject_Z c) t) = a) /\
  (t == 1 -> Math_round (lerp (inject_Z a) (inject_Z c) t) = c).
Proof.
  intros Ht. split; [|split].
  - apply Math_round_bounds, lerp_between, Ht.
  - intros H0. apply Math_round_int. unfold lerp. rewrite H0. ring.
  - intros H1. apply Math_round_int. unfold lerp. rewrite H1. ring.
Qed.

(** X15: [applyFog(colorHex, d)] is the string [rgb(r,g,b)] whose channels
    each lie between the colour's channel and the sky's; at distance at most
    5 it is the colour itself, from distance 20 on it is the sky colour
    [rgb(135,206,235)]. *)
Theorem applyFog_channels colorHex d :
  let base := hexToRgb colorHex in
  exists r' g' b',
    applyFog colorHex d = rgb_string r' g' b' /\
    between (r base) 135 r' /\ between (g base) 206 g' /\ between (b base) 235 b' /\
    (d <= 5 -> r' = r base /\ g' = g base /\ b' = b base) /\
    (20 <= d -> r' = 135%Z /\ g' = 206%Z /\ b' = 235%Z).
Proof.
  cbv zeta. unfold applyFog. cbv zeta.
  change (r SKY_RGB) with 135%Z. change (g SKY_RGB) with 206%Z. change (b SKY_RGB) with 235%Z.
  pose proof (fogFactor_range d) as Hf.
  destruct (round_lerp (r (hexToRgb colorHex)) 135 _ Hf) as (R1 & R2 & R3).
  destruct (round_lerp (g (hexToRgb colorHex)) 206 _ Hf) as (G1 & G2 & G3).
  destruct (round_lerp (b (hexToRgb colorHex)) 235 _ Hf) as (B1 & B2 & B3).
  eexists _, _, _. split; [reflexivity|].
  split; [exact R1|]. split; [exact G1|]. split; [exact B1|]. split.
  - intros Hd. pose proof (fogFactor_near d Hd). auto.
  - intros Hd. pose proof (fogFactor_far d Hd). auto.
Qed.

(** ** The high-score table *)

Section HighScoreFacts.
Local Close Scope Q_scope.

(** How many entries score at least [x]'s score. *)
Definition count_ge (x : HighScore.t) (l : list HighScore.t) : nat :=
  List.length (filter (fun y => HighScore.score x <=? HighScore.score y)%Z l).

Definition desc (a b : HighScore.t) : Prop := (HighScore.score b <= HighScore.score a)%Z.

Lemma insert_desc_perm x l : Permutation (insert_desc x l) (x :: l).
Proof.
  induction l as [| y l IH]; cbn; [constructor; constructor|].
  destruct (HighScore.score x <=? HighScore.score y)%Z; [|reflexivity].
  eapply perm_trans; [apply perm_skip, IH | apply perm_swap].
Qed.

Lemma sort_desc_perm_aux l acc : Permutation (fold_left (fun acc x => insert_desc x acc) l acc) (acc ++ l).
Proof.
  revert acc. induction l as [| x l IH]; intros acc; cbn; [rewrite app_nil_r; reflexivity|].
  eapply perm_trans; [apply IH|].
  eapply perm_trans; [apply Permutation_app_tail, insert_desc_perm|].
  cbn. apply Permutation_middle.
Qed.

Lemma sort_desc_perm l : Permutation (sort_desc l) l.
Proof. apply (sort_desc_perm_aux l []). Qed.

Lemma insert_desc_sorted x l : Sorted desc l -> Sorted desc (insert_desc x l).
Proof.
  induction l as [| y l IH]; intros Hs; cbn; [repeat constructor|].
  destruct (HighScore.score x <=? HighScore.score y)%Z eqn:E.
  - apply Z.leb_le in E. inversion Hs; subst. constructor; [apply IH; assumption|].
    destruct l as [| z l]; cbn; [constructor; exact E|].
    inversion H2; subst.
    destruct (HighScore.score x <=? HighScore.score z)%Z; constructor; [assumption | exact E].
  - apply Z.leb_gt in E. constructor; [exact Hs | constructor; unfold desc; lia].
Qed.

Lemma sort_desc_sorted l : Sorted desc (sort_desc l).
Proof.
  unfold sort_desc. generalize (@nil HighScore.t) (Sorted_nil desc).
  induction l as [| x l IH]; intros acc Hacc; cbn; [exact Hacc|].
  apply IH, insert_desc_sorted, Hacc.
Qed.

Lemma desc_trans : Relations_1.Transitive desc.
Proof. intros a b c Hab Hbc. unfold desc in *. lia. Qed.

Lemma filter_ge_nil x y l :
  Forall (desc y) l -> (HighScore.score y < HighScore.score x)%Z ->
  filter (fun z => HighScore.score x <=? HighScore.score z)%Z l = [].
Proof.
  intros Hf Hxy. induction Hf as [| z l Hz Hf IH]; [reflexivity|].
  unfold desc in Hz. cbn [filter].
  destruct (HighScore.score x <=? HighScore.score z)%Z eqn:Ez; [apply Z.leb_le in Ez; lia | exact IH].
Qed.

(** In a table sorted by descending score, [insert_desc] puts [x] right
    after the entries that score at least as much. *)
Lemma insert_desc_split x l :
  Sorted desc l ->
  insert_desc x l = firstn (count_ge x l) l ++ x :: skipn (count_ge x l) l.
Proof.
  induction l as [| y l IH]; intros Hs; [reflexivity|].
  unfold count_ge in *. cbn [insert_desc filter].
  destruct (HighScore.score x <=? HighScore.score y)%Z eqn:E.
  - cbn [List.length firstn skipn app]. inversion Hs; subst. rewrite IH by assumption. reflexivity.
  - apply Z.leb_gt in E.
    apply Sorted_StronglySorted in Hs; [|exact desc_trans].
    inversion Hs as [| ? ? _ Hf]; subst.
    rewrite (filter_ge_nil x y l Hf E). reflexivity.
Qed.

Lemma count_ge_perm x l l' : Permutation l l' -> count_ge x l = count_ge x l'.
Proof.
  unfold count_ge. induction 1; cbn [filter]; try reflexivity.
  - destruct (HighScore.score x <=? HighScore.score x0)%Z; cbn [List.length]; congruence.
  - destruct (HighScore.score x <=? HighScore.score x0)%Z, (HighScore.score x <=? HighScore.score y)%Z;
      reflexivity.
  - congruence.
Qed.

Lemma Sorted_firstn {A} (R : A -> A -> Prop) n l : Sorted R l -> Sorted R (firstn n l).
Proof.
  revert l. induction n as [| n IH]; intros l Hs; [constructor|].
  destruct l as [| a l]; [constructor|]. cbn [firstn].
  inversion Hs as [| ? ? Hs' Hh]; subst. constructor; [apply IH, Hs'|].
  destruct n, l; cbn; constructor. inversion Hh; assumption.
Qed.

Lemma sort_desc_snoc l x : sort_desc (l ++ [x]) = insert_desc x (sort_desc l).
Proof. unfold sort_desc. rewrite fold_left_app. reflexivity. Qed.

Lemma count_ge_le x l : (count_ge x l <= List.length l)%nat.
Proof. unfold count_ge. apply filter_length_le. Qed.

Lemma firstn_app_ge {A} n (l1 l2 : list A) :
  (n <= List.length l1)%nat -> firstn n (l1 ++ l2) = firstn n l1.
Proof.
  intros H. rewrite firstn_app. replace (n - List.length l1)%nat with 0%nat by lia.
  cbn [firstn]. apply app_nil_r.
Qed.

(** X16: the high-score table of [handleGameOver] has at most five entries
    sorted by decreasing score. If fewer than five old entries score at
    least as high as the new one ([k] of them), the new entry is at index
    [k]; otherwise the table is the top five of the old entries. *)
Theorem newScores_spec highScores x :
  let k := count_ge x highScores in
  (List.length (newScores highScores x) <= 5)%nat /\
  Sorted desc (newScores highScores x) /\
  ((k < 5)%nat -> nth_error (newScores highScores x) k = Some x) /\
  ((5 <= k)%nat -> newScores highScores x = firstn 5 (sort_desc highScores)).
Proof.
  cbv zeta. unfold newScores. rewrite sort_desc_snoc.
  split; [apply firstn_le_length|]. split.
  { apply Sorted_firstn, insert_desc_sorted, sort_desc_sorted. }
  rewrite (insert_desc_split x _ (sort_desc_sorted highScores)).
  rewrite <- (count_ge_perm x _ _ (sort_desc_perm highScores)).
  pose proof (count_ge_le x (sort_desc highScores)) as Hk.
  set (k := count_ge x (sort_desc highScores)) in *.
  set (l := sort_desc highScores) in *.
  assert (Hlen : List.length (firstn k l) = k) by (apply firstn_length_le; exact Hk).
  split.
  - intros H5. rewrite nth_error_firstn.
    destruct (Nat.ltb_spec k 5) as [_ | H]; [|lia].
    rewrite nth_error_app2 by lia. rewrite Hlen, Nat.sub_diag. reflexivity.
  - intros H5. rewrite firstn_app_ge by lia.
    rewrite <- (firstn_skipn k l) at 2. rewrite firstn_app_ge by lia. reflexivity.
Qed.
End HighScoreFacts.

Definition EntityId_eq_dec (a b : EntityId) : {a = b} + {a <> b}.
Proof. decide equality; apply Z.eq_dec. Defined.

(** The slice an entity id names. *)
Definition id_slice (i : EntityId) : Z :=
  match i with
  | ground_id zi _ | obs_id zi | obs_stack_id zi | gold_id zi => zi
  end.

(** Number of entities carrying id [i]. *)
Definition count_id (i : EntityId) (l : list Entity.t) : nat :=
  List.length (filter (fun e => if EntityId_eq_dec (Entity.id e) i then true else false) l).

Definition pos_ok (e : Entity.t) : Prop :=
  Point3D.z (Entity.position e) = inject_Z (id_slice (Entity.id e)).

Lemma count_id_app i l1 l2 : count_id i (l1 ++ l2)%list = (count_id i l1 + count_id i l2)%nat.
Proof. unfold count_id. rewrite filter_app, length_app. reflexivity. Qed.

Lemma count_id_map_mark i p l : count_id i (map (mark p) l) = count_id i l.
Proof.
  unfold count_id. induction l as [| e l IH]; [reflexivity|].
  cbn [map filter]. assert (Entity.id (mark p e) = Entity.id e) as ->
    by (unfold mark; destruct_ifs; reflexivity).
  destruct (EntityId_eq_dec (Entity.id e) i); cbn [List.length]; rewrite IH; reflexivity.
Qed.

Lemma count_id_filter i f l :
  Forall (fun e => Entity.id e = i -> f e = true) l -> count_id i (filter f l) = count_id i l.
Proof.
  unfold count_id. induction 1 as [| e l He _ IH]; [reflexivity|].
  cbn [filter]. destruct (EntityId_eq_dec (Entity.id e) i) as [Hi|Hi].
  - rewrite (He Hi). cbn [filter List.length]. destruct (EntityId_eq_dec (Entity.id e) i); [|contradiction].
    cbn [List.length]. rewrite IH. reflexivity.
  - destruct (f e); cbn [filter]; destruct (EntityId_eq_dec (Entity.id e) i); try contradiction; exact IH.
Qed.

Lemma count_id_none i l : Forall (fun e => Entity.id e <> i) l -> count_id i l = 0%nat.
Proof.
  unfold count_id. induction 1 as [| e l He _ IH]; [reflexivity|].
  cbn [filter]. destruct (EntityId_eq_dec (Entity.id e) i); [contradiction | exact IH].
Qed.

Lemma ground_row_count zi :
  count_id (ground_id 5 0) (ground_row zi) = if (zi =? 5)%Z then 1%nat else 0%nat.
Proof.
  destruct (Z.eqb_spec zi 5) as [->|Hz]; [reflexivity|].
  apply count_id_none. unfold ground_row. cbn [map].
  repeat constructor; cbn [Entity.id]; congruence.
Qed.

Lemma ground_row_pos_ok zi : Forall pos_ok (ground_row zi).
Proof. unfold ground_row. cbn [map]. repeat constructor. Qed.

Lemma slice_extra_pos_ok lvl zi e : slice_extra_ok lvl zi e -> pos_ok e.
Proof.
  intros (Hi & Hz & _). unfold pos_ok. rewrite Hz.
  destruct Hi as [-> | [-> | ->]]; reflexivity.
Qed.

Lemma slice_extra_not_ground lvl zi e a b : slice_extra_ok lvl zi e -> Entity.id e <> ground_id a b.
Proof. intros (Hi & _). destruct Hi as [-> | [-> | ->]]; discriminate. Qed.

Lemma settings_small d :
  0 < startSpeed (DIFFICULTY_SETTINGS d) /\ maxSpeed (DIFFICULTY_SETTINGS d) + 0.2 < 10.
Proof. destruct d; cbn; split; lra. Qed.

Section Dup.
Variable random : nat -> Q.
Variable sin : Q -> Q.

Lemma generateSlice_pos_ok zi s :
  Forall pos_ok (entities s) -> Forall pos_ok (entities (generateSlice random sin zi s)).
Proof.
  intro H. destruct (generateSlice_shape random sin zi s) as (extra & -> & _ & _ & Hx).
  repeat rewrite Forall_app. split; [exact H|]. split; [apply ground_row_pos_ok|].
  eapply Forall_impl; [|exact Hx]. intros e. apply slice_extra_pos_ok.
Qed.

Lemma generateSlice_count zi s :
  count_id (ground_id 5 0) (entities (generateSlice random sin zi s)) =
  (count_id (ground_id 5 0) (entities s) + if (zi =? 5)%Z then 1 else 0)%nat.
Proof.
  destruct (generateSlice_shape random sin zi s) as (extra & -> & _ & _ & Hx).
  rewrite !count_id_app, ground_row_count.
  rewrite (count_id_none _ extra); [lia|].
  eapply Forall_impl; [|exact Hx]. intros e. apply slice_extra_not_ground.
Qed.

Lemma generateSlices_pos_ok zs s :
  Forall pos_ok (entities s) -> Forall pos_ok (entities (generateSlices random sin zs s)).
Proof.
  unfold generateSlices. revert s. induction zs as [| zi zs IH]; intros s H; [exact H|].
  cbn [fold_left]. apply IH, generateSlice_pos_ok, H.
Qed.

Lemma generateSlices_count zs s :
  count_id (ground_id 5 0) (entities (generateSlices random sin zs s)) =
  (count_id (ground_id 5 0) (entities s) + List.length (filter (fun zi => (zi =? 5)%Z) zs))%nat.
Proof.
  unfold generateSlices. revert s. induction zs as [| zi zs IH]; intros s; [cbn; lia|].
  cbn [fold_left filter]. rewrite IH, generateSlice_count.
  destruct (zi =? 5)%Z; cbn [List.length]; lia.
Qed.

Lemma reset_pos_ok d s0 : Forall pos_ok (entities (reset random sin d s0)).
Proof. unfold reset. cbv zeta. apply generateSlices_pos_ok. constructor. Qed.

Lemma reset_count d s0 : count_id (ground_id 5 0) (entities (reset random sin d s0)) = 1%nat.
Proof. unfold reset. cbv zeta. rewrite generateSlices_count. reflexivity. Qed.

Lemma reset_lastGenZ d s0 : lastGenZ (reset random sin d s0) = 5%Z.
Proof.
  unfold reset. cbv zeta.
  rewrite (generateSlices_keeps random sin lastGenZ) by apply generateSlice_lastGenZ.
  reflexivity.
Qed.

Definition keeps_lgz (s s' : GameEngine) : Prop := lastGenZ s' = lastGenZ s.

Ltac stage_lgz := cbv zeta; proj_simpl; destruct_ifs; gen_spawn; frame_finish.

Lemma upToJump_lastGenZ s input dt : lastGenZ (upToJump random s input dt) = lastGenZ s.
Proof.
  unfold upToJump. cbn [lateral moveForward map_player lastGenZ set_player].
  assert (H1 : keeps_lgz s (decayShake s)) by (unfold keeps_lgz, decayShake; stage_lgz).
  assert (H2 : forall s, keeps_lgz s (activatePhase random input s))
    by (intros; unfold keeps_lgz, activatePhase; stage_lgz).
  assert (H3 : forall s, keeps_lgz s (levelUp s)) by (intros; unfold keeps_lgz, levelUp; stage_lgz).
  assert (H4 : forall s, keeps_lgz s (accelerate s)) by (intros; unfold keeps_lgz, accelerate; stage_lgz).
  unfold keeps_lgz in *. rewrite H4, H3, H2. exact H1.
Qed.

Lemma jumpAndGravity_lastGenZ input s : lastGenZ (jumpAndGravity random input s) = lastGenZ s.
Proof. unfold jumpAndGravity. stage_lgz. Qed.

Lemma mark_pos_ok p e : pos_ok e -> pos_ok (mark p e).
Proof. unfold mark. destruct_ifs; exact (fun H => H). Qed.

Lemma worldGen_pos_ok s :
  Forall pos_ok (entities s) -> Forall pos_ok (entities (worldGen random sin s)).
Proof.
  intro H. unfold worldGen. cbv zeta. destruct_ifs; [|exact H].
  apply generateSlice_pos_ok, H.
Qed.

Lemma update_pos_ok s input dt :
  Forall pos_ok (entities s) -> Forall pos_ok (entities (update random sin s input dt)).
Proof.
  intro H. destruct (gameWon s) eqn:Hw.
  - unfold update. rewrite Hw. exact H.
  - destruct (update_entities_eq random sin s input dt Hw) as [-> _].
    apply Forall_map. eapply Forall_impl; [intros e; apply mark_pos_ok|].
    unfold beforeCollisions, cleanup. proj_simpl. apply Forall_filter'. apply worldGen_pos_ok.
    rewrite entities_s1. exact H.
Qed.

(** X17: in every reachable state every entity sits at the depth its id
    names: [z] is the slice number in [ground_z_x], [obs_z], [obs_stack_z]
    or [gold_z]. *)
Theorem reachable_pos_ok d s : reachable random sin d s -> Forall pos_ok (entities s).
Proof. induction 1; [apply reset_pos_ok | apply update_pos_ok; assumption]. Qed.

(** X18: [reset] generates slices 0 to 24 but sets [lastGenZ] to 5, so the
    first [update] after it generates slice 5 again: for every difficulty,
    random stream, input and time step, that update leaves two entities
    with the id [ground_5_0]. *)
Theorem first_update_slice5_twice d s0 input dt :
  count_id (ground_id 5 0)
    (entities (update random sin (reset random sin d s0) input dt)) = 2%nat.
Proof.
  set (s := reset random sin d s0).
  assert (Hw : gameWon s = false) by apply reset_gameWon.
  destruct (update_entities_eq random sin s input dt Hw) as [-> Hp].
  rewrite count_id_map_mark.
  rewrite beforeCollisions_upToJump in Hp |- *.
  set (s1 := jumpAndGravity random input (upToJump random s input dt)) in Hp |- *.
  rewrite cleanup_player, worldGen_player in Hp.
  (* the player is one speed step from the start line *)
  assert (Hz : 0 < pos_z (player s1) < 10).
  { rewrite <- Hp. pose proof (update_distance random sin s input dt Hw) as Hd.
    destruct (speed_bounds_aux random sin d _
                (reachable_update random sin d s input dt (reachable_reset random sin d s0)))
      as [Hlo Hhi].
    assert (Hs : pos_z (player s) = 0) by (unfold s; rewrite reset_player; reflexivity).
    rewrite Hs in Hd.
    destruct (settings_small d). split; lra. }
  assert (Hl : lastGenZ s1 = 5%Z).
  { unfold s1. rewrite jumpAndGravity_lastGenZ, upToJump_lastGenZ. apply reset_lastGenZ. }
  assert (HW : worldGen random sin s1 = set_lastGenZ 6 (generateSlice random sin 5 s1)).
  { unfold worldGen. cbv zeta. rewrite Hl.
    assert (Hc : Qltb (inject_Z 5) (Point3D.z (PlayerState.position (player s1)) + 25) = true).
    { apply Qltb_true. unfold pos_z in Hz. change (inject_Z 5) with 5. lra. }
    rewrite Hc, generateSlice_lastGenZ, Hl. reflexivity. }
  assert (He1 : entities s1 = entities s).
  { unfold s1, upToJump. apply entities_s1. }
  rewrite HW. unfold cleanup. proj_simpl. rewrite generateSlice_player.
  rewrite count_id_filter.
  - rewrite generateSlice_count, He1. unfold s. rewrite reset_count. reflexivity.
  - pose proof (generateSlice_pos_ok 5 s1) as Hpos.
    rewrite He1 in Hpos. specialize (Hpos (reset_pos_ok d s0)).
    eapply Forall_impl; [|exact Hpos]. intros e He Hid.
    unfold pos_ok in He. rewrite Hid in He. cbn [id_slice] in He.
    apply Qltb_true. rewrite He. unfold pos_z in Hz. change (inject_Z 5) with 5. lra.
Qed.

End Dup.

(** ** The remaining extra theorems, and witnesses *)

Lemma reachable_lateral_bounds_witness :
  let s := update zero_random zero_sin (new_GameEngine zero_random zero_sin) phase_input 16 in
  reachable zero_random zero_sin MEDIUM s /\ lateral_ok (player s).
Proof.
  cbv zeta.
  assert (Hr : reachable zero_random zero_sin MEDIUM
                 (update zero_random zero_sin (new_GameEngine zero_random zero_sin) phase_input 16))
    by (apply reachable_update; apply reachable_reset).
  split; [exact Hr | exact (reachable_lateral_bounds zero_random zero_sin MEDIUM _ Hr)].
Defined.

Lemma reachable_vertical_witness :
  let s := update zero_random zero_sin (new_GameEngine zero_random zero_sin) phase_input 16 in
  reachable zero_random zero_sin MEDIUM s /\ vert_ok (vert (player s)).
Proof.
  cbv zeta.
  assert (Hr : reachable zero_random zero_sin MEDIUM
                 (update zero_random zero_sin (new_GameEngine zero_random zero_sin) phase_input 16))
    by (apply reachable_update; apply reachable_reset).
  split; [exact Hr | exact (reachable_vertical zero_random zero_sin MEDIUM _ Hr)].
Defined.

(** X3: in every state reachable from [reset(d)], [currentSpeed] lies
    between the difficulty's [startSpeed] and its [maxSpeed + 0.2]. *)
Theorem reachable_speed_bounds random sin d s :
  reachable random sin d s ->
  startSpeed (DIFFICULTY_SETTINGS d) <= currentSpeed s <= maxSpeed (DIFFICULTY_SETTINGS d) + 0.2.
Proof. intro Hr. exact (speed_bounds_aux random sin d s Hr). Qed.

Lemma reachable_speed_bounds_witness :
  let s := update zero_random zero_sin (new_GameEngine zero_random zero_sin) phase_input 16 in
  reachable zero_random zero_sin MEDIUM s /\
  startSpeed (DIFFICULTY_SETTINGS MEDIUM) <= currentSpeed s <= maxSpeed (DIFFICULTY_SETTINGS MEDIUM) + 0.2.
Proof.
  cbv zeta.
  assert (Hr : reachable zero_random zero_sin MEDIUM
                 (update zero_random zero_sin (new_GameEngine zero_random zero_sin) phase_input 16))
    by (apply reachable_update; apply reachable_reset).
  split; [exact Hr | exact (reachable_speed_bounds zero_random zero_sin MEDIUM _ Hr)].
Defined.

Lemma reachable_distance_step_witness :
  let s := new_GameEngine zero_random zero_sin in
  reachable zero_random zero_sin MEDIUM s /\ gameWon s = false /\
  pos_z (player (update zero_random zero_sin s noinput 16)) ==
    pos_z (player s) + currentSpeed (update zero_random zero_sin s noinput 16) /\
  pos_z (player s) < pos_z (player (update zero_random zero_sin s noinput 16)).
Proof.
  cbv zeta.
  assert (Hr : reachable zero_random zero_sin MEDIUM (new_GameEngine zero_random zero_sin))
    by apply reachable_reset.
  assert (Hw : gameWon (new_GameEngine zero_random zero_sin) = false) by (vm_compute; reflexivity).
  split; [exact Hr | split; [exact Hw |]].
  exact (reachable_distance_step zero_random zero_sin MEDIUM _ noinput 16 Hr Hw).
Defined.

(** X5: in every reachable state the score is a non-negative multiple of
    10, and the game is won exactly when the score is at least 250. *)
Theorem reachable_score_ok random sin d s : reachable random sin d s -> score_ok s.
Proof. intro Hr. exact (score_ok_reachable random sin d s Hr). Qed.

Lemma reachable_score_ok_witness :
  let s := update zero_random zero_sin (new_GameEngine zero_random zero_sin) phase_input 16 in
  reachable zero_random zero_sin MEDIUM s /\ score_ok s.
Proof.
  cbv zeta.
  assert (Hr : reachable zero_random zero_sin MEDIUM
                 (update zero_random zero_sin (new_GameEngine zero_random zero_sin) phase_input 16))
    by (apply reachable_update; apply reachable_reset).
  split; [exact Hr | exact (reachable_score_ok zero_random zero_sin MEDIUM _ Hr)].
Defined.

Lemma reachable_level_ok_witness :
  let s := update zero_random zero_sin (new_GameEngine zero_random zero_sin) phase_input 16 in
  reachable zero_random zero_sin MEDIUM s /\ level_ok s.
Proof.
  cbv zeta.
  assert (Hr : reachable zero_random zero_sin MEDIUM
                 (update zero_random zero_sin (new_GameEngine zero_random zero_sin) phase_input 16))
    by (apply reachable_update; apply reachable_reset).
  split; [exact Hr | exact (reachable_level_ok zero_random zero_sin MEDIUM _ Hr)].
Defined.

Lemma reachable_shake_ok_witness :
  let s := update zero_random zero_sin (new_GameEngine zero_random zero_sin) phase_input 16 in
  reachable zero_random zero_sin MEDIUM s /\ shake_ok s.
Proof.
  cbv zeta.
  assert (Hr : reachable zero_random zero_sin MEDIUM
                 (update zero_random zero_sin (new_GameEngine zero_random zero_sin) phase_input 16))
    by (apply reachable_update; apply reachable_reset).
  split; [exact Hr | exact (reachable_shake_ok zero_random zero_sin MEDIUM _ Hr)].
Defined.

Lemma reachable_part_ok_witness :
  let s := update zero_random zero_sin (new_GameEngine zero_random zero_sin) phase_input 16 in
  reachable zero_random zero_sin MEDIUM s /\ part_ok s.
Proof.
  cbv zeta.
  assert (Hr : reachable zero_random zero_sin MEDIUM
                 (update zero_random zero_sin (new_GameEngine zero_random zero_sin) phase_input 16))
    by (apply reachable_update; apply reachable_reset).
  split; [exact Hr | exact (reachable_part_ok zero_random zero_sin MEDIUM _ Hr)].
Defined.

(** X9: [checkCollisions] changes each entity on its own: an entity is
    marked collected exactly when it was not collected, overlaps the
    player's box, and is GOLD or the phase is inactive; all other entities
    are unchanged and the order is kept. *)
Theorem checkCollisions_entities_eq random s :
  entities (checkCollisions random s) = map (mark (player s)) (entities s).
Proof. exact (checkCollisions_entities_mark random s). Qed.

(** X10: [generateSlice(z)] appends the five ground blocks of row [z] and
    at most two further blocks; for [z <= 10] nothing further. The further
    blocks carry the ids [obs_z], [obs_stack_z] or [gold_z], sit at depth
    [z], are not collected, and are GOLD or one of the obstacles available
    at the current level. *)
Theorem generateSlice_entities_shape random sin zi s :
  exists extra,
    entities (generateSlice random sin zi s) = (entities s ++ ground_row zi ++ extra)%list /\
    ((zi <= 10)%Z -> extra = []) /\ (List.length extra <= 2)%nat /\
    Forall (slice_extra_ok (level s) zi) extra.
Proof. exact (generateSlice_shape random sin zi s). Qed.

Lemma reachable_ent_ok_witness :
  let s := update zero_random zero_sin (new_GameEngine zero_random zero_sin) phase_input 16 in
  reachable zero_random zero_sin MEDIUM s /\ Forall ent_ok (entities s).
Proof.
  cbv zeta.
  assert (Hr : reachable zero_random zero_sin MEDIUM
                 (update zero_random zero_sin (new_GameEngine zero_random zero_sin) phase_input 16))
    by (apply reachable_update; apply reachable_reset).
  split; [exact Hr | exact (reachable_ent_ok zero_random zero_sin MEDIUM _ Hr)].
Defined.

Lemma reachable_behind_ok_witness :
  let s := update zero_random zero_sin (new_GameEngine zero_random zero_sin) phase_input 16 in
  reachable zero_random zero_sin MEDIUM s /\ behind_ok s.
Proof.
  cbv zeta.
  assert (Hr : reachable zero_random zero_sin MEDIUM
                 (update zero_random zero_sin (new_GameEngine zero_random zero_sin) phase_input 16))
    by (apply reachable_update; apply reachable_reset).
  split; [exact Hr | exact (reachable_behind_ok zero_random zero_sin MEDIUM _ Hr)].
Defined.

Lemma hexToRgb_hex2_witness :
  channel_ok 135 /\ channel_ok 206 /\ channel_ok 235 /\
  hexToRgb ("#" ++ hex2 135 ++ hex2 206 ++ hex2 235) = mkRgb 135 206 235 /\
  hexToRgb (hex2 135 ++ hex2 206 ++ hex2 235) = mkRgb 135 206 235.
Proof.
  assert (H1 : channel_ok 135) by (unfold channel_ok; lia).
  assert (H2 : channel_ok 206) by (unfold channel_ok; lia).
  assert (H3 : channel_ok 235) by (unfold channel_ok; lia).
  split; [exact H1 | split; [exact H2 | split; [exact H3 |]]].
  exact (hexToRgb_hex2 135 206 235 H1 H2 H3).
Defined.

Lemma reachable_pos_ok_witness :
  let s := update zero_random zero_sin (new_GameEngine zero_random zero_sin) phase_input 16 in
  reachable zero_random zero_sin MEDIUM s /\ Forall pos_ok (entities s).
Proof.
  cbv zeta.
  assert (Hr : reachable zero_random zero_sin MEDIUM
                 (update zero_random zero_sin (new_GameEngine zero_random zero_sin) phase_input 16))
    by (apply reachable_update; apply reachable_reset).
  split; [exact Hr | exact (reachable_pos_ok zero_random zero_sin MEDIUM _ Hr)].
Defined.

